(** * Regional state reconciliation: the consistency-checker workflow

    A shallow embedding of the ConsistencyChecker and CorrectionSystem
    constructs: the Step Functions state machine definition, the Lambda
    declarations and the EventBridge schedules, with an interpreter for
    the fragment of the Amazon States Language that the definition uses.
    The Lambda handlers are deployed from [placeholder.zip]: what a handler
    answers is an input of the model, except where a definition says that
    it is modelled from the specification. *)

From Stdlib Require Import ZArith NArith QArith Qabs String Ascii List Bool Lia.
From stdpp Require Import base option list strings gmap.
Import ListNotations.

Local Open Scope string_scope.
Local Open Scope N_scope.

Set Warnings "-register-all".

(** ** JSON values and reference paths *)

Inductive json : Type :=
| JNull
| JBool (b : bool)
| JNum (n : Z)
| JStr (s : string)
| JArr (items : list json)
| JObj (fields : list (string * json)).

(** Property lookup in an object literal, first binding of the key. *)
Fixpoint assoc {A : Type} (k : string) (l : list (string * A)) : option A :=
  match l with
  | [] => None
  | (k', v) :: l' => if String.eqb k k' then Some v else assoc k l'
  end.

(** A reference path [$.a.b] is the list of its field names; [$] is []. *)
Definition path := list string.

Fixpoint json_path (p : path) (j : json) : option json :=
  match p with
  | [] => Some j
  | f :: p' =>
      match j with
      | JObj fields =>
          match assoc f fields with
          | Some v => json_path p' v
          | None => None
          end
      | _ => None
      end
  end.

(** ** The Amazon States Language fragment of the definition *)

(** The two Lambda functions a Task of the definition can name. *)
Inductive lambda_fn : Type :=
| driftDetectorFunction
| stateCorrectorFunction.

(** A field of a Task payload: a literal ([key: v]) or a reference into the
    state input ([key.$: path]). *)
Inductive pvalue : Type :=
| Lit (j : json)
| Ref (p : path).

Inductive transition : Type :=
| Next (name : string)
| End.

(** A Choice rule [{ Variable, BooleanEquals, Next }]. *)
Record choice_rule : Type := ChoiceRule {
  Variable_ : path;
  BooleanEquals : bool;
  ChoiceNext : string
}.

(** States; every Task of the definition has
    [Resource: 'arn:aws:states:::lambda:invoke'], and no state has a Retry
    or a Catch field. *)
Inductive asl_state : Type :=
| Parallel (Branches : list machine) (tr : transition)
| Task (FunctionName : lambda_fn) (Payload : list (string * pvalue))
       (TimeoutSeconds : option N) (tr : transition)
| Choice (Choices : list choice_rule) (Default : option string)
| Succeed
with machine : Type :=
| Machine (StartAt : string) (States : list (string * asl_state)).

Definition StartAt (m : machine) : string :=
  match m with Machine s _ => s end.

Definition States (m : machine) : list (string * asl_state) :=
  match m with Machine _ sts => sts end.

(** [region.replace(/-/g, '')] *)
Fixpoint remove_dashes (s : string) : string :=
  match s with
  | EmptyString => EmptyString
  | String c s' =>
      if Ascii.eqb c "-"%char then remove_dashes s'
      else String c (remove_dashes s')
  end.

Definition CheckRegion (region : string) : string :=
  "CheckRegion" ++ remove_dashes region.

(** The [stateMachineDefinition] object of the ConsistencyChecker
    constructor, for [props.regions = regions]. *)
Definition stateMachineDefinition (regions : list string) : machine :=
  Machine "CompareRegions"
    [ ("CompareRegions",
        Parallel
          (map (fun region =>
                  Machine (CheckRegion region)
                    [ (CheckRegion region,
                        Task driftDetectorFunction
                          [ ("region", Lit (JStr region));
                            ("action", Lit (JStr "compare")) ]
                          (Some 5) End) ])
               regions)
          (Next "AnalyzeDrift"));
      ("AnalyzeDrift",
        Task driftDetectorFunction
          [ ("action", Lit (JStr "analyze"));
            ("results", Ref []) ]
          None (Next "DriftDetected?"));
      ("DriftDetected?",
        Choice
          [ {| Variable_ := ["Payload"; "driftDetected"];
               BooleanEquals := true;
               ChoiceNext := "CorrectDrift" |} ]
          (Some "Success"));
      ("CorrectDrift",
        Task stateCorrectorFunction
          [ ("driftRegions", Ref ["Payload"; "driftRegions"]);
            ("canonicalState", Ref ["Payload"; "canonicalState"]) ]
          (Some 10) End);
      ("Success", Succeed) ].

(** ** Lambda functions and their invocation *)

(** The [timeout] (seconds) of the two [LambdaFunction] declarations. *)
Definition lambda_timeout (f : lambda_fn) : N :=
  match f with
  | driftDetectorFunction => 60
  | stateCorrectorFunction => 60
  end.

(** What a handler does with a payload: it answers after [ms] milliseconds,
    throws after [ms] milliseconds, or never answers. *)
Inductive behaviour : Type :=
| Returns (ms : N) (response : json)
| Throws (ms : N) (error : string)
| Hangs.

(** The deployed handlers, as far as a workflow can observe them. *)
Definition handlers := lambda_fn -> json -> behaviour.

(** An invocation is cut at the function's own timeout. *)
Definition invoke (env : handlers) (f : lambda_fn) (payload : json)
  : N * (string + json) :=
  let limit := lambda_timeout f * 1000 in
  match env f payload with
  | Returns ms r =>
      if ms <=? limit then (ms, inr r) else (limit, inl "Sandbox.Timedout")
  | Throws ms e =>
      if ms <=? limit then (ms, inl e) else (limit, inl "Sandbox.Timedout")
  | Hangs => (limit, inl "Sandbox.Timedout")
  end.

(** [TimeoutSeconds]: a task that runs longer fails with States.Timeout. *)
Definition with_timeout (TimeoutSeconds : option N) (r : N * (string + json))
  : N * (string + json) :=
  match TimeoutSeconds with
  | Some s => if fst r <=? s * 1000 then r else (s * 1000, inl "States.Timeout")
  | None => r
  end.

(** The payload of a Task, its references resolved in the state input. *)
Fixpoint build_payload (fields : list (string * pvalue)) (input : json)
  : option (list (string * json)) :=
  match fields with
  | [] => Some []
  | (k, Lit j) :: rest =>
      match build_payload rest input with
      | Some fs => Some ((k, j) :: fs)
      | None => None
      end
  | (k, Ref p) :: rest =>
      match json_path p input, build_payload rest input with
      | Some j, Some fs => Some ((k, j) :: fs)
      | _, _ => None
      end
  end.

(** The result object of the lambda:invoke integration. *)
Definition task_output (response : json) : json :=
  JObj [ ("StatusCode", JNum 200); ("Payload", response) ].

(** ** Executions *)

(** One Lambda invocation made by an execution. *)
Record event : Type := Event {
  ev_state : string;
  ev_fn : lambda_fn;
  ev_payload : json;
  ev_start : N;
  ev_end : N;
  ev_result : string + json
}.

Inductive status : Type :=
| Succeeded (output : json)
| Failed (error : string)
| OutOfFuel.

Record execution : Type := Execution {
  exec_status : status;
  exec_last : string;
  exec_end : N;
  exec_trace : list event
}.

Definition after (evs : list event) (e : execution) : execution :=
  {| exec_status := exec_status e;
     exec_last := exec_last e;
     exec_end := exec_end e;
     exec_trace := evs ++ exec_trace e |}.

(** Evaluation of the rules of a Choice state, in order. *)
Inductive choice : Type :=
| Chosen (name : string)
| NoMatch
| InvalidPath.

Fixpoint choose (rules : list choice_rule) (input : json) : choice :=
  match rules with
  | [] => NoMatch
  | r :: rules' =>
      match json_path (Variable_ r) input with
      | None => InvalidPath
      | Some (JBool b) =>
          if Bool.eqb b (BooleanEquals r) then Chosen (ChoiceNext r)
          else choose rules' input
      | Some _ => choose rules' input
      end
  end.

(** Fan-in of a Parallel state.  All branches succeeded: the outputs in
    branch order, at the time the last one ended.  Otherwise the error of
    the branch that failed first (the leftmost of these), at that time. *)
Fixpoint outputs (rs : list execution) : option (list json) :=
  match rs with
  | [] => Some []
  | r :: rs' =>
      match exec_status r, outputs rs' with
      | Succeeded o, Some os => Some (o :: os)
      | _, _ => None
      end
  end.

Fixpoint latest (now : N) (rs : list execution) : N :=
  match rs with
  | [] => now
  | r :: rs' => N.max (exec_end r) (latest now rs')
  end.

Fixpoint first_failure (rs : list execution) : option (status * N) :=
  match rs with
  | [] => None
  | r :: rs' =>
      match exec_status r, first_failure rs' with
      | Succeeded _, f => f
      | s, None => Some (s, exec_end r)
      | s, Some (s', t') =>
          if exec_end r <=? t' then Some (s, exec_end r) else Some (s', t')
      end
  end.

(** [run fuel env m cur input now]: the execution of [m] from state [cur]
    on [input], started at time [now] (milliseconds).  An unhandled error
    of a state is the error of the execution.  A Parallel state runs every
    branch on the input of the state from the same instant; the events of
    the branches are listed in branch order, those of a branch that a
    failure of another one cuts short included.  [OutOfFuel] tells that
    [fuel] steps did not reach the end. *)
Fixpoint run (fuel : nat) (env : handlers) (m : machine) (cur : string)
             (input : json) (now : N) : execution :=
  match fuel with
  | O => Execution OutOfFuel cur now []
  | S fuel' =>
      let continue tr out t evs :=
        match tr with
        | End => Execution (Succeeded out) cur t evs
        | Next name => after evs (run fuel' env m name out t)
        end in
      match assoc cur (States m) with
      | None => Execution (Failed "States.Runtime") cur now []
      | Some Succeed => Execution (Succeeded input) cur now []
      | Some (Choice rules default) =>
          match choose rules input, default with
          | Chosen name, _ => run fuel' env m name input now
          | NoMatch, Some name => run fuel' env m name input now
          | NoMatch, None =>
              Execution (Failed "States.NoChoiceMatched") cur now []
          | InvalidPath, _ => Execution (Failed "States.Runtime") cur now []
          end
      | Some (Task f fields timeout tr) =>
          match build_payload fields input with
          | None => Execution (Failed "States.ParameterPathFailure") cur now []
          | Some fs =>
              let r := with_timeout timeout (invoke env f (JObj fs)) in
              let t := now + fst r in
              let ev := Event cur f (JObj fs) now t (snd r) in
              match snd r with
              | inl e => Execution (Failed e) cur t [ev]
              | inr response => continue tr (task_output response) t [ev]
              end
          end
      | Some (Parallel branches tr) =>
          let rs := map (fun b => run fuel' env b (StartAt b) input now)
                        branches in
          let evs := concat (map exec_trace rs) in
          match outputs rs with
          | Some outs => continue tr (JArr outs) (latest now rs) evs
          | None =>
              match first_failure rs with
              | Some (s, t) => Execution s cur t evs
              | None => Execution (Failed "States.Runtime") cur now evs
              end
          end
      end
  end.

(** One reconciliation cycle: an execution of the state machine on the
    event of the schedule, started at [now]. *)
Definition cycle (regions : list string) (env : handlers) (input : json)
                 (now : N) : execution :=
  let m := stateMachineDefinition regions in
  run 5 env m (StartAt m) input now.

(** ** The phases of a cycle *)

Definition compare_payload (region : string) : json :=
  JObj [ ("region", JStr region); ("action", JStr "compare") ].

Definition analyze_payload (results : list json) : json :=
  JObj [ ("action", JStr "analyze"); ("results", JArr results) ].

(** The branch of one region: a single Task under a 5-second timeout. *)
Definition check_region (env : handlers) (now : N) (region : string)
  : execution :=
  let r := with_timeout (Some 5)
             (invoke env driftDetectorFunction (compare_payload region)) in
  let t := now + fst r in
  let ev := Event (CheckRegion region) driftDetectorFunction
                  (compare_payload region) now t (snd r) in
  match snd r with
  | inl e => Execution (Failed e) (CheckRegion region) t [ev]
  | inr response =>
      Execution (Succeeded (task_output response)) (CheckRegion region) t [ev]
  end.

(** The CorrectDrift state on the output [out] of AnalyzeDrift. *)
Definition correct_drift (env : handlers) (out : json) (now : N)
  : execution :=
  match json_path ["Payload"; "driftRegions"] out,
        json_path ["Payload"; "canonicalState"] out with
  | Some dr, Some cs =>
      let payload := JObj [ ("driftRegions", dr); ("canonicalState", cs) ] in
      let r := with_timeout (Some 10)
                 (invoke env stateCorrectorFunction payload) in
      let t := now + fst r in
      let ev := Event "CorrectDrift" stateCorrectorFunction payload now t
                      (snd r) in
      match snd r with
      | inl e => Execution (Failed e) "CorrectDrift" t [ev]
      | inr response =>
          Execution (Succeeded (task_output response)) "CorrectDrift" t [ev]
      end
  | _, _ => Execution (Failed "States.ParameterPathFailure") "CorrectDrift"
                      now []
  end.

(** The 'DriftDetected?' state on the output [out] of AnalyzeDrift. *)
Definition drift_detected (env : handlers) (out : json) (now : N)
  : execution :=
  match json_path ["Payload"; "driftDetected"] out with
  | None => Execution (Failed "States.Runtime") "DriftDetected?" now []
  | Some (JBool true) => correct_drift env out now
  | Some _ => Execution (Succeeded out) "Success" now []
  end.

(** The AnalyzeDrift state on the results of the branches, and what
    follows it. *)
Definition analyze_drift (env : handlers) (results : list json) (now : N)
  : execution :=
  let r := with_timeout None
             (invoke env driftDetectorFunction (analyze_payload results)) in
  let t := now + fst r in
  let ev := Event "AnalyzeDrift" driftDetectorFunction
                  (analyze_payload results) now t (snd r) in
  match snd r with
  | inl e => Execution (Failed e) "AnalyzeDrift" t [ev]
  | inr response => after [ev] (drift_detected env (task_output response) t)
  end.

Definition phases (regions : list string) (env : handlers) (now : N)
  : execution :=
  let rs := map (check_region env now) regions in
  let evs := concat (map exec_trace rs) in
  match outputs rs with
  | Some outs => after evs (analyze_drift env outs (latest now rs))
  | None =>
      match first_failure rs with
      | Some (s, t) => Execution s "CompareRegions" t evs
      | None => Execution (Failed "States.Runtime") "CompareRegions" now evs
      end
  end.

(** What follows a state that produced [out] at time [t] with events
    [evs]. *)
Definition continue (fuel : nat) (env : handlers) (m : machine)
    (cur : string) (tr : transition) (out : json) (t : N)
    (evs : list event) : execution :=
  match tr with
  | End => Execution (Succeeded out) cur t evs
  | Next name => after evs (run fuel env m name out t)
  end.

(** ** Observations on an execution *)

Definition at_state (name : string) (ev : event) : bool :=
  String.eqb (ev_state ev) name.

Definition by_corrector (ev : event) : bool :=
  match ev_fn ev with
  | stateCorrectorFunction => true
  | driftDetectorFunction => false
  end.

Definition by_detector (ev : event) : bool :=
  match ev_fn ev with
  | driftDetectorFunction => true
  | stateCorrectorFunction => false
  end.

(** The Corrector ran: some invocation of the state-corrector function. *)
Definition corrector_invoked (e : execution) : bool :=
  existsb by_corrector (exec_trace e).

(** The analysis ran: the AnalyzeDrift task invoked its function. *)
Definition analyzer_invoked (e : execution) : bool :=
  existsb (at_state "AnalyzeDrift") (exec_trace e).

(** The report of the cycle: what the AnalyzeDrift task returned. *)
Definition DriftReport_of (e : execution) : option json :=
  match find (at_state "AnalyzeDrift") (exec_trace e) with
  | Some ev =>
      match ev_result ev with
      | inr report => Some report
      | inl _ => None
      end
  | None => None
  end.

(** The events of the sampling phase. *)
Definition sampling (env : handlers) (now : N) (regions : list string)
  : list event :=
  concat (map exec_trace (map (check_region env now) regions)).

(** ** Severity of a report *)

Inductive Severity : Type := SevNone | Minor | Major.

Fixpoint strings_of (items : list json) : list string :=
  match items with
  | [] => []
  | JStr s :: rest => s :: strings_of rest
  | _ :: rest => strings_of rest
  end.

(** The regions a report implicates: its [driftRegions], which the
    CorrectDrift task hands to the state corrector. *)
Definition implicated (report : json) : list string :=
  match json_path ["driftRegions"] report with
  | Some (JArr items) => remove_dups (strings_of items)
  | _ => []
  end.

(** Modelled from the spec: the severity classification of DriftAnalyzer
    (section 4.2, step 5), which the placeholder handler leaves open.
    None: no drifted drivers.  Minor: drifted drivers exist but at most two
    regions are affected.  Major: three or more regions are affected. *)
Definition classify (driftedDrivers affected : nat) : Severity :=
  match driftedDrivers with
  | O => SevNone
  | S _ => if (affected <=? 2)%nat then Minor else Major
  end.

(** The severity of a report of the analysis handler: it has drifted
    drivers exactly when it implicates some region. *)
Definition severity_of (report : json) : Severity :=
  classify (length (implicated report)) (length (implicated report)).

(** ** The shapes of a cycle *)

(** A region is sampled when the handler answers the compare request
    within the 5 seconds of the branch. *)
Definition sampled (env : handlers) (region : string) : bool :=
  match env driftDetectorFunction (compare_payload region) with
  | Returns ms _ => ms <=? 5000
  | _ => false
  end.

Definition analyze_event (results : list json) (t1 t2 : N)
    (res : string + json) : event :=
  Event "AnalyzeDrift" driftDetectorFunction (analyze_payload results)
        t1 t2 res.

Definition correct_payload (dr cs : json) : json :=
  JObj [ ("driftRegions", dr); ("canonicalState", cs) ].

Definition correct_event (dr cs : json) (t2 t3 : N) (res : string + json)
  : event :=
  Event "CorrectDrift" stateCorrectorFunction (correct_payload dr cs)
        t2 t3 res.

(** How an execution ends on the result of its last Task. *)
Definition ending (res : string + json) : status :=
  match res with
  | inl err => Failed err
  | inr response => Succeeded (task_output response)
  end.

(** Every execution of the definition has one of six shapes. *)
Inductive cycle_shape (env : handlers) (now : N) (regions : list string)
  : execution -> Prop :=
| sampling_failed err t :
    forallb (sampled env) regions = false ->
    t <= now + 5000 ->
    cycle_shape env now regions
      (Execution (Failed err) "CompareRegions" t (sampling env now regions))
| analysis_failed results t1 t2 err :
    forallb (sampled env) regions = true ->
    now <= t1 <= now + 5000 -> t1 <= t2 <= t1 + 60000 ->
    cycle_shape env now regions
      (Execution (Failed err) "AnalyzeDrift" t2
         (sampling env now regions
          ++ [analyze_event results t1 t2 (inl err)]))
| flag_missing results t1 t2 report :
    forallb (sampled env) regions = true ->
    now <= t1 <= now + 5000 -> t1 <= t2 <= t1 + 60000 ->
    json_path ["driftDetected"] report = None ->
    cycle_shape env now regions
      (Execution (Failed "States.Runtime") "DriftDetected?" t2
         (sampling env now regions
          ++ [analyze_event results t1 t2 (inr report)]))
| not_detected results t1 t2 report v :
    forallb (sampled env) regions = true ->
    now <= t1 <= now + 5000 -> t1 <= t2 <= t1 + 60000 ->
    json_path ["driftDetected"] report = Some v -> v <> JBool true ->
    cycle_shape env now regions
      (Execution (Succeeded (task_output report)) "Success" t2
         (sampling env now regions
          ++ [analyze_event results t1 t2 (inr report)]))
| nothing_to_correct results t1 t2 report :
    forallb (sampled env) regions = true ->
    now <= t1 <= now + 5000 -> t1 <= t2 <= t1 + 60000 ->
    json_path ["driftDetected"] report = Some (JBool true) ->
    json_path ["driftRegions"] report = None
    \/ json_path ["canonicalState"] report = None ->
    cycle_shape env now regions
      (Execution (Failed "States.ParameterPathFailure") "CorrectDrift" t2
         (sampling env now regions
          ++ [analyze_event results t1 t2 (inr report)]))
| corrected results t1 t2 report dr cs t3 res :
    forallb (sampled env) regions = true ->
    now <= t1 <= now + 5000 -> t1 <= t2 <= t1 + 60000 ->
    json_path ["driftDetected"] report = Some (JBool true) ->
    json_path ["driftRegions"] report = Some dr ->
    json_path ["canonicalState"] report = Some cs ->
    t2 <= t3 <= t2 + 10000 ->
    res = snd (with_timeout (Some 10)
                 (invoke env stateCorrectorFunction (correct_payload dr cs))) ->
    cycle_shape env now regions
      (Execution (ending res) "CorrectDrift" t3
         (sampling env now regions
          ++ [analyze_event results t1 t2 (inr report);
              correct_event dr cs t2 t3 res])).

(** ** The claims on the workflow, as the specification words them *)

(** Correction is gated on severity: the Corrector runs exactly in the
    cycles whose report has severity Major. *)
Definition corrects_exactly_major (e : execution) : Prop :=
  corrector_invoked e = true <->
  exists report, DriftReport_of e = Some report /\ severity_of report = Major.

(** A verification phase follows the Corrector: after its invocation the
    detector is invoked again. *)
Definition verification_follows (e : execution) : Prop :=
  forall (pre : list event) (ev : event) (post : list event),
    exec_trace e = (pre ++ ev :: post)%list ->
    by_corrector ev = true ->
    exists v, In v post /\ by_detector v = true.

(** One of three regions may time out: the analysis still runs on the
    other two and the cycle does not fail. *)
Definition tolerates_one_timeout : Prop :=
  forall r1 r2 r3 env input now,
    sampled env r1 = true -> sampled env r2 = true ->
    env driftDetectorFunction (compare_payload r3) = Hangs ->
    let e := cycle [r1; r2; r3] env input now in
    analyzer_invoked e = true /\ forall err, exec_status e <> Failed err.

(** *** Example handlers *)

Definition three_regions : list string :=
  ["us-east-1"; "eu-west-1"; "ap-south-1"].

Definition D1_at (lat lon : Z) : json :=
  JObj [ ("driverID", JStr "D1"); ("latitude", JNum lat);
         ("longitude", JNum lon) ].

Definition is_compare (payload : json) : bool :=
  match json_path ["action"] payload with
  | Some (JStr "compare") => true
  | _ => false
  end.

(** Two of the three regions disagree on driver D1: the analysis reports
    drift between us-east-1 and eu-west-1, and the corrector answers in 3
    seconds. *)
Definition two_regions_drifted : handlers := fun f payload =>
  match f with
  | driftDetectorFunction =>
      if is_compare payload
      then Returns 1200 (JObj [ ("samples", JArr [D1_at 377749 (-1224194)]) ])
      else Returns 800
             (JObj [ ("driftDetected", JBool true);
                     ("driftRegions",
                       JArr [JStr "us-east-1"; JStr "eu-west-1"]);
                     ("canonicalState",
                       JObj [ ("D1", D1_at 377749 (-1224194)) ]) ])
  | stateCorrectorFunction =>
      Returns 3000 (JObj [ ("applied", JNum 1); ("failed", JArr []) ])
  end.

(** The regions agree, but ap-south-1 never answers. *)
Definition one_region_silent : handlers := fun f payload =>
  match f with
  | driftDetectorFunction =>
      if is_compare payload
      then match json_path ["region"] payload with
           | Some (JStr "ap-south-1") => Hangs
           | _ => Returns 1200
                    (JObj [ ("samples", JArr [D1_at 377749 (-1224194)]) ])
           end
      else Returns 800
             (JObj [ ("driftDetected", JBool false);
                     ("driftRegions", JArr []);
                     ("canonicalState", JObj []) ])
  | stateCorrectorFunction =>
      Returns 3000 (JObj [ ("applied", JNum 0); ("failed", JArr []) ])
  end.

(** ** The schedules *)

Record CloudwatchEventRule : Type := {
  name : string;
  scheduleExpression : string;
  state : string
}.

(** The 'consistency-check-rule' of the ConsistencyChecker; its target is
    the state machine, without condition. *)
Definition eventRule (environment : string) : CloudwatchEventRule :=
  {| name := "location-consistency-check-" ++ environment;
     scheduleExpression := "rate(1 minute)";
     state := "ENABLED" |}.

(** The 'snapshot-rule' of the CorrectionSystem; its target is the
    snapshot creator. *)
Definition snapshotRule (environment : string) : CloudwatchEventRule :=
  {| name := "location-snapshot-schedule-" ++ environment;
     scheduleExpression := "rate(1 hour)";
     state := "ENABLED" |}.

(** *** Rate expressions: [rate(value unit)] *)

Fixpoint drop_prefix (p s : string) : option string :=
  match p, s with
  | EmptyString, _ => Some s
  | String c p', String d s' =>
      if Ascii.eqb c d then drop_prefix p' s' else None
  | String _ _, EmptyString => None
  end.

Definition digit (c : ascii) : option N :=
  let n := N_of_ascii c in
  if (48 <=? n) && (n <=? 57) then Some (n - 48) else None.

(** The leading decimal digits of [s] on top of [acc], and the rest. *)
Fixpoint read_digits (s : string) (acc : N) : N * string :=
  match s with
  | EmptyString => (acc, s)
  | String c s' =>
      match digit c with
      | Some d => read_digits s' (10 * acc + d)
      | None => (acc, s)
      end
  end.

Definition unit_seconds (unit : string) : option N :=
  if String.eqb unit "minute" || String.eqb unit "minutes" then Some 60
  else if String.eqb unit "hour" || String.eqb unit "hours" then Some 3600
  else if String.eqb unit "day" || String.eqb unit "days" then Some 86400
  else None.

Fixpoint drop_last (s : string) : option (string * ascii) :=
  match s with
  | EmptyString => None
  | String c EmptyString => Some (EmptyString, c)
  | String c s' =>
      match drop_last s' with
      | Some (front, l) => Some (String c front, l)
      | None => None
      end
  end.

(** The period of a rate expression, in seconds. *)
Definition rate_seconds (expr : string) : option N :=
  match drop_prefix "rate(" expr with
  | None => None
  | Some rest =>
      let '(value, rest') := read_digits rest 0 in
      match drop_prefix " " rest' with
      | None => None
      | Some unit_paren =>
          match drop_last unit_paren with
          | Some (unit, ")"%char) =>
              match unit_seconds unit with
              | Some s => if value =? 0 then None else Some (value * s)
              | None => None
              end
          | _ => None
          end
      end
  end.

(** The period of a rule in milliseconds (0 for an invalid expression). *)
Definition period_ms (rule : CloudwatchEventRule) : N :=
  match rate_seconds (scheduleExpression rule) with
  | Some s => s * 1000
  | None => 0
  end.

(** The rule fires every [seconds] seconds. *)
Definition fires_every (rule : CloudwatchEventRule) (seconds : N) : Prop :=
  state rule = "ENABLED" /\
  rate_seconds (scheduleExpression rule) = Some seconds.








(** ** The ConsistencyChecker construct *)

Record AwsProvider : Type := {
  provider_alias : string;
  provider_region : string
}.

Record ElasticacheReplicationGroup : Type := {
  group_id : string;
  configurationEndpointAddress : string
}.

Record ConsistencyCheckerProps : Type := {
  providers : gmap string AwsProvider;
  regions : list string;
  primaryRegion : string;
  elastiCacheClusters : gmap string ElasticacheReplicationGroup;
  snapshotBucketArn : string;
  kinesisStreamArns : list (string * string);
  environment : string
}.

(** A statement of a policy document. *)
Record statement : Type := {
  Effect : string;
  Action : list string;
  Principal : option string;
  Resource : list string
}.

(** The value of an environment variable: a string, or the
    [JSON.stringify] of a value. *)
Inductive env_value : Type :=
| Plain (s : string)
| Stringified (j : json).

(** The resources the constructor declares, each with the [provider] it
    is given. *)
Inductive resource : Type :=
| IamRole (id : string) (provider : option AwsProvider)
          (namePrefix : string) (assumeRolePolicy : list statement)
| IamRolePolicy (id : string) (provider : option AwsProvider)
                (role : string) (policy : list statement)
| LambdaFunction (id : string) (provider : option AwsProvider)
                 (functionName : string) (role : string) (handler : string)
                 (runtime : string) (timeout : N) (memorySize : N)
                 (variables : list (string * env_value))
                 (filename : string) (dependsOn : list string)
| SfnStateMachine (id : string) (provider : option AwsProvider)
                  (machine_name : string) (roleArn : string)
                  (definition : machine)
| EventRule (id : string) (provider : option AwsProvider)
            (rule : CloudwatchEventRule)
| CloudwatchEventTarget (id : string) (provider : option AwsProvider)
                        (rule_name : string) (arn : string)
                        (roleArn : string).

Definition resource_id (r : resource) : string :=
  match r with
  | IamRole id _ _ _ | IamRolePolicy id _ _ _
  | LambdaFunction id _ _ _ _ _ _ _ _ _ _ | SfnStateMachine id _ _ _ _
  | EventRule id _ _ | CloudwatchEventTarget id _ _ _ _ => id
  end.

Definition resource_provider (r : resource) : option AwsProvider :=
  match r with
  | IamRole _ p _ _ | IamRolePolicy _ p _ _
  | LambdaFunction _ p _ _ _ _ _ _ _ _ _ | SfnStateMachine _ p _ _ _
  | EventRule _ p _ | CloudwatchEventTarget _ p _ _ _ => p
  end.

(** The attribute [attr] of the resource declared as [id]. *)
Definition attribute (id attr : string) : string := id ++ "." ++ attr.

(** [s.split(sep).pop()]: what follows the last [sep] of [s]. *)
Fixpoint last_segment (sep : ascii) (s : string) (acc : string) : string :=
  match s with
  | EmptyString => acc
  | String c s' =>
      if Ascii.eqb c sep then last_segment sep s' EmptyString
      else last_segment sep s' (acc ++ String c EmptyString)
  end.

Definition assume_role (service : string) : list statement :=
  [ {| Effect := "Allow"; Action := ["sts:AssumeRole"];
       Principal := Some service; Resource := [] |} ].

(** The id under which a Lambda function of the workflow is declared. *)
Definition lambda_id (f : lambda_fn) : string :=
  match f with
  | driftDetectorFunction => "drift-detector"
  | stateCorrectorFunction => "state-corrector"
  end.

(** The constructor of ConsistencyChecker: the resources it declares, in
    order.  [None]: the constructor throws, reading
    [configurationEndpointAddress] of [undefined], when [props.regions] is
    empty or its first region has no cache cluster. *)
Definition ConsistencyChecker (props : ConsistencyCheckerProps)
  : option (list resource) :=
  let primaryProvider := providers props !! primaryRegion props in
  match regions props !! 0%nat with
  | None => None
  | Some first =>
      match elastiCacheClusters props !! first with
      | None => None
      | Some cluster =>
          Some
            [ IamRole "drift-detector-role" primaryProvider
                ("drift-detector-role-" ++ environment props ++ "-")
                (assume_role "lambda.amazonaws.com");
              IamRolePolicy "drift-detector-policy" primaryProvider
                (attribute "drift-detector-role" "id")
                [ {| Effect := "Allow";
                     Action := ["elasticache:DescribeReplicationGroups";
                                "elasticache:DescribeCacheClusters"];
                     Principal := None; Resource := ["*"] |};
                  {| Effect := "Allow";
                     Action := ["s3:GetObject"; "s3:ListBucket"];
                     Principal := None;
                     Resource := [snapshotBucketArn props;
                                  snapshotBucketArn props ++ "/*"] |};
                  {| Effect := "Allow";
                     Action := ["kinesis:PutRecord"; "kinesis:PutRecords"];
                     Principal := None;
                     Resource := map snd (kinesisStreamArns props) |};
                  {| Effect := "Allow";
                     Action := ["logs:CreateLogGroup";
                                "logs:CreateLogStream";
                                "logs:PutLogEvents"];
                     Principal := None;
                     Resource := ["arn:aws:logs:*:*:*"] |} ];
              LambdaFunction (lambda_id driftDetectorFunction) primaryProvider
                ("drift-detector-" ++ environment props)
                (attribute "drift-detector-role" "arn")
                "index.handler" "nodejs20.x"
                (lambda_timeout driftDetectorFunction) 3008
                [ ("REGIONS", Stringified (JArr (map JStr (regions props))));
                  ("ELASTICACHE_ENDPOINT",
                    Plain (configurationEndpointAddress cluster));
                  ("SNAPSHOT_BUCKET",
                    Plain (last_segment ":" (snapshotBucketArn props) EmptyString));
                  ("DETECTION_DEADLINE_MS", Plain "3000");
                  ("CORRECTION_DEADLINE_MS", Plain "8000") ]
                "../../../lib/placeholder.zip"
                (map (fun kv => group_id (snd kv))
                     (map_to_list (elastiCacheClusters props)));
              LambdaFunction (lambda_id stateCorrectorFunction) primaryProvider
                ("state-corrector-" ++ environment props)
                (attribute "drift-detector-role" "arn")
                "index.handler" "nodejs20.x"
                (lambda_timeout stateCorrectorFunction) 3008
                [ ("KINESIS_STREAMS",
                    Stringified
                      (JObj (map (fun kv => (fst kv, JStr (snd kv)))
                                 (kinesisStreamArns props))));
                  ("SNAPSHOT_BUCKET",
                    Plain (last_segment ":" (snapshotBucketArn props) EmptyString));
                  ("PROPAGATION_DEADLINE_MS", Plain "8000") ]
                "../../../lib/placeholder.zip" [];
              IamRole "step-functions-role" primaryProvider
                ("consistency-checker-sf-role-" ++ environment props ++ "-")
                (assume_role "states.amazonaws.com");
              IamRolePolicy "step-functions-policy" primaryProvider
                (attribute "step-functions-role" "id")
                [ {| Effect := "Allow"; Action := ["lambda:InvokeFunction"];
                     Principal := None;
                     Resource :=
                       [attribute (lambda_id driftDetectorFunction) "arn";
                        attribute (lambda_id stateCorrectorFunction) "arn"]
                  |} ];
              SfnStateMachine "consistency-state-machine" primaryProvider
                ("location-consistency-checker-" ++ environment props)
                (attribute "step-functions-role" "arn")
                (stateMachineDefinition (regions props));
              EventRule "consistency-check-rule" primaryProvider
                (eventRule (environment props));
              CloudwatchEventTarget "consistency-check-target" primaryProvider
                (name (eventRule (environment props)))
                (attribute "consistency-state-machine" "arn")
                (attribute "step-functions-role" "arn") ]
      end
  end.

(** The variable [key] of the Lambda function declared as [id]. *)
Fixpoint lambda_variable (id key : string) (rs : list resource)
  : option env_value :=
  match rs with
  | [] => None
  | LambdaFunction id' _ _ _ _ _ _ _ vars _ _ :: rest =>
      if String.eqb id id' then assoc key vars
      else lambda_variable id key rest
  | _ :: rest => lambda_variable id key rest
  end.

(** Three regions, one provider and one cache cluster each. *)
Definition example_props : ConsistencyCheckerProps :=
  {| providers :=
       list_to_map
         (map (fun r => (r, {| provider_alias := r; provider_region := r |}))
              three_regions);
     regions := ["eu-west-1"; "us-east-1"; "ap-south-1"];
     primaryRegion := "us-east-1";
     elastiCacheClusters :=
       list_to_map
         (map (fun r => (r, {| group_id := "cache-" ++ r;
                               configurationEndpointAddress :=
                                 "cache." ++ r ++ ".example" |}))
              three_regions);
     snapshotBucketArn := "arn:aws:s3:::location-snapshots-dev-0a1b2c3d";
     kinesisStreamArns := [];
     environment := "dev" |}.

(** ** The engine behind the handlers *)

(** The handlers of the two functions are [placeholder.zip]; the data and
    the components below are those of the specification. *)

(** Modelled from the spec: LocationSample (section 3); the handler code is
    missing.  A coordinate is the rational its float64 denotes. *)
Record LocationSample : Type := {
  driverID : string;
  latitude : Q;
  longitude : Q;
  observedAtMillis : Z;
  region : string
}.

(** Modelled from the spec: RegionSnapshot (section 3). *)
Record RegionSnapshot : Type := {
  snapshot_region : string;
  fetchedAtMillis : Z;
  samples : list LocationSample;
  fetchError : option string
}.

(** Modelled from the spec: DriftRecord (section 3). *)
Record DriftRecord : Type := {
  record_driverID : string;
  regionsCompared : list string;
  maxDistanceMeters : Q;
  involvedRegions : list string
}.

(** Modelled from the spec: DriftReport (section 3); [confident] is the
    zero-confidence flag of section 4.2, step 1. *)
Record DriftReport : Type := {
  cycleID : string;
  sampleSize : nat;
  driftedDriverCount : nat;
  driftPercentage : Q;
  maxDriftMeters : Q;
  severity : Severity;
  affectedRegions : list string;
  confident : bool
}.

(** Modelled from the spec: CanonicalSnapshot (section 3). *)
Record CanonicalSnapshot : Type := {
  takenAtMillis : Z;
  driverPositions : list (string * LocationSample);
  checksum : string
}.

(** Modelled from the spec: CorrectionPlan (section 3). *)
Record CorrectionPlan : Type := {
  plan_cycleID : string;
  targetRegions : list string;
  records : list LocationSample
}.

(** *** DriftAnalyzer *)

Definition position (s : LocationSample) : Q * Q :=
  (latitude s, longitude s).

Definition Qmax (a b : Q) : Q := if Qle_bool a b then b else a.

Fixpoint pairs {A : Type} (l : list A) : list (A * A) :=
  match l with
  | [] => []
  | x :: l' => map (pair x) l' ++ pairs l'
  end.

Section DriftAnalyzer.

(** The great-circle distance in meters between two positions. *)
Variable haversine : Q * Q -> Q * Q -> Q.

Definition threshold : Q := 100 # 1.

Definition is_usable (s : RegionSnapshot) : bool :=
  match fetchError s with
  | None => true
  | Some _ => false
  end.

Definition usable (snapshots : list RegionSnapshot) : list RegionSnapshot :=
  List.filter is_usable snapshots.

(** The position of driver [d] in each snapshot that has one, with the
    region of the snapshot. *)
Definition sightings (d : string) (us : list RegionSnapshot)
  : list (string * LocationSample) :=
  flat_map (fun s =>
              match find (fun x => String.eqb (driverID x) d) (samples s) with
              | Some x => [(snapshot_region s, x)]
              | None => []
              end) us.

Definition distance
    (p : (string * LocationSample) * (string * LocationSample)) : Q :=
  haversine (position (snd (fst p))) (position (snd (snd p))).

Definition exceeds (q : Q) : bool := negb (Qle_bool q threshold).

Definition drift_record (d : string) (us : list RegionSnapshot)
  : DriftRecord :=
  let seen := sightings d us in
  {| record_driverID := d;
     regionsCompared := map fst seen;
     maxDistanceMeters := fold_right Qmax (0 # 1) (map distance (pairs seen));
     involvedRegions :=
       remove_dups
         (flat_map (fun p => if exceeds (distance p)
                             then [fst (fst p); fst (snd p)] else [])
                   (pairs seen)) |}.

(** The drivers present in at least two usable snapshots. *)
Definition compared (us : list RegionSnapshot) : list string :=
  List.filter (fun d => (2 <=? length (sightings d us))%nat)
    (remove_dups (flat_map (fun s => map driverID (samples s)) us)).

Definition percentage (part whole : nat) : Q :=
  (inject_Z (Z.of_nat part) / inject_Z (Z.of_nat whole) * (100 # 1))%Q.

(** Modelled from the spec: DriftAnalyzer.analyze (section 4.2), the
    'analyze' action of the drift-detector handler, whose code is missing.
    Snapshots with a fetch error are discarded and fewer than two usable
    ones give severity None without confidence; a driver seen in at least
    two usable snapshots is drifted when its maximum pairwise distance
    exceeds 100 meters; the affected regions are those of the drifted
    pairs. *)
Definition analyze (cycle_id : string) (snapshots : list RegionSnapshot)
  : DriftReport :=
  let us := usable snapshots in
  if (length us <? 2)%nat then
    {| cycleID := cycle_id; sampleSize := 0; driftedDriverCount := 0;
       driftPercentage := 0 # 1; maxDriftMeters := 0 # 1;
       severity := SevNone; affectedRegions := []; confident := false |}
  else
    let rs := map (fun d => drift_record d us) (compared us) in
    let drifted :=
      List.filter (fun r => exceeds (maxDistanceMeters r)) rs in
    let affected := remove_dups (flat_map involvedRegions drifted) in
    {| cycleID := cycle_id;
       sampleSize := length rs;
       driftedDriverCount := length drifted;
       driftPercentage := percentage (length drifted) (length rs);
       maxDriftMeters := fold_right Qmax (0 # 1) (map maxDistanceMeters rs);
       severity := classify (length drifted) (length affected);
       affectedRegions := affected;
       confident := true |}.

(** All usable regions report identical positions for every driver. *)
Definition identical_positions (snapshots : list RegionSnapshot) : Prop :=
  forall s1 s2 x1 x2,
    In s1 (usable snapshots) -> In s2 (usable snapshots) ->
    In x1 (samples s1) -> In x2 (samples s2) ->
    driverID x1 = driverID x2 -> position x1 = position x2.

End DriftAnalyzer.

(** A distance to run the analysis on: the sum of the differences of the
    coordinates, at 111320 meters a degree. *)
Definition flat_distance (p q : Q * Q) : Q :=
  ((Qabs (fst p - fst q) + Qabs (snd p - snd q)) * (111320 # 1))%Q.

Definition D1_in (r : string) (lat lon : Q) : RegionSnapshot :=
  {| snapshot_region := r; fetchedAtMillis := 1698765432000;
     samples := [ {| driverID := "D1"; latitude := lat; longitude := lon;
                     observedAtMillis := 1698765431000; region := r |} ];
     fetchError := None |}.

Definition agreeing_snapshots : list RegionSnapshot :=
  [ D1_in "us-east-1" (377749 # 10000) (-1224194 # 10000);
    D1_in "eu-west-1" (377749 # 10000) (-1224194 # 10000);
    {| snapshot_region := "ap-south-1"; fetchedAtMillis := 1698765432000;
       samples := []; fetchError := Some "RegionUnavailable" |} ].

(** The end-to-end scenario of the specification: the third region places
    D1 about 1.2 km away. *)
Definition diverging_snapshots : list RegionSnapshot :=
  [ D1_in "us-east-1" (377749 # 10000) (-1224194 # 10000);
    D1_in "eu-west-1" (377749 # 10000) (-1224194 # 10000);
    D1_in "ap-south-1" (377759 # 10000) (-1224294 # 10000) ].

(** *** Propagator and Corrector *)

(** The regional caches: the record of a driver in a region. *)
Abbreviation caches := (gmap (string * string) LocationSample).

(** Modelled from the spec: the propagation channel, Publish (section 6),
    last-write-wins by the timestamp of the record: a record older than
    the cached one is dropped. *)
Definition Publish (s : LocationSample) (w : caches) : caches :=
  match w !! (region s, driverID s) with
  | Some old =>
      if (observedAtMillis s <? observedAtMillis old)%Z then w
      else <[(region s, driverID s) := s]> w
  | None => <[(region s, driverID s) := s]> w
  end.

(** What a cache cell holds after a publication for it. *)
Definition lww (cell : option LocationSample) (s : LocationSample)
  : option LocationSample :=
  match cell with
  | Some old =>
      if (observedAtMillis s <? observedAtMillis old)%Z then cell else Some s
  | None => Some s
  end.

Definition cell_of (s : LocationSample) : string * string :=
  (region s, driverID s).

Definition publish_all (l : list LocationSample) (w : caches) : caches :=
  fold_left (fun w s => Publish s w) l w.

Definition retarget (target : string) (s : LocationSample) : LocationSample :=
  {| driverID := driverID s; latitude := latitude s;
     longitude := longitude s; observedAtMillis := observedAtMillis s;
     region := target |}.

(** The records a plan hands to the Propagator, in order: each record for
    each target region. *)
Definition deliveries (plan : CorrectionPlan) : list LocationSample :=
  flat_map (fun s => map (fun target => retarget target s)
                         (targetRegions plan))
           (records plan).

(** Modelled from the spec: Corrector.buildPlan (section 4.3): a report
    names no drivers, so the plan takes every driver of the canonical
    snapshot, for the affected regions. *)
Definition plan_for (cycle_id : string) (targets : list string)
    (canonical : CanonicalSnapshot) : CorrectionPlan :=
  {| plan_cycleID := cycle_id;
     targetRegions := targets;
     records := map snd (driverPositions canonical) |}.

Definition buildPlan (report : DriftReport) (canonical : CanonicalSnapshot)
  : CorrectionPlan :=
  plan_for (cycleID report) (affectedRegions report) canonical.

Record outcome : Type := {
  applied : nat;
  failed : list string
}.

(** Modelled from the spec: Corrector.apply (section 4.3): every record is
    delegated to the Propagator; [acks] tells which publications are
    acknowledged, a failure is recorded for its driver and the others go
    on. *)
Definition apply_plan (acks : LocationSample -> bool)
    (plan : CorrectionPlan) (w : caches) : caches * outcome :=
  fold_left
    (fun st s =>
       if acks s
       then (Publish s (fst st),
             {| applied := S (applied (snd st));
                failed := failed (snd st) |})
       else (fst st,
             {| applied := applied (snd st);
                failed := failed (snd st) ++ [driverID s] |}))
    (deliveries plan)
    (w, {| applied := 0; failed := [] |}).


(** Modelled from the spec: the staleness bound (section 4.3), 2 times the
    reconciliation interval, here the period of the consistency-check
    rule. *)
Definition staleness_bound (environment : string) : N :=
  2 * period_ms (eventRule environment).







(** ** More of the workflow *)

(** *** Well-formed definitions *)

Definition names_state (names : list string) (n : string) : bool :=
  existsb (String.eqb n) names.

Definition transition_ok (names : list string) (tr : transition) : bool :=
  match tr with
  | Next n => names_state names n
  | End => true
  end.

Fixpoint distinct (names : list string) : bool :=
  match names with
  | [] => true
  | n :: rest => negb (names_state rest n) && distinct rest
  end.

(** A definition is well formed when its state names are distinct, StartAt
    names one of them, and so does every Next, every Default and the Next
    of every Choice rule; likewise in the branches of its Parallel
    states. *)
Fixpoint well_formed (m : machine) : bool :=
  match m with
  | Machine start sts =>
      let names := map fst sts in
      names_state names start && distinct names &&
      (fix states_ok (l : list (string * asl_state)) : bool :=
         match l with
         | [] => true
         | (_, st) :: l' => state_ok names st && states_ok l'
         end) sts
  end
with state_ok (names : list string) (st : asl_state) : bool :=
  match st with
  | Parallel branches tr =>
      (fix branches_ok (l : list machine) : bool :=
         match l with
         | [] => true
         | b :: l' => well_formed b && branches_ok l'
         end) branches
      && transition_ok names tr
  | Task _ _ _ tr => transition_ok names tr
  | Choice rules default =>
      forallb (fun r => names_state names (ChoiceNext r)) rules &&
      match default with
      | Some d => names_state names d
      | None => true
      end
  | Succeed => true
  end.

(** The functions the Tasks of a definition name, branches included. *)
Fixpoint task_functions (m : machine) : list lambda_fn :=
  match m with
  | Machine _ sts =>
      (fix of_states (l : list (string * asl_state)) : list lambda_fn :=
         match l with
         | [] => []
         | (_, st) :: l' => (state_functions st ++ of_states l')%list
         end) sts
  end
with state_functions (st : asl_state) : list lambda_fn :=
  match st with
  | Parallel branches _ =>
      (fix of_branches (l : list machine) : list lambda_fn :=
         match l with
         | [] => []
         | b :: l' => (task_functions b ++ of_branches l')%list
         end) branches
  | Task f _ _ _ => [f]
  | Choice _ _ => []
  | Succeed => []
  end.

(** *** What the handlers answer *)

(** The answer of a region to the compare request, when it comes within
    the 5 seconds of the branch: its delay and the response. *)
Definition answer (env : handlers) (region : string) : option (N * json) :=
  match env driftDetectorFunction (compare_payload region) with
  | Returns ms response => if ms <=? 5000 then Some (ms, response) else None
  | _ => None
  end.

(** The answers of all regions, in order, when every one came in time. *)
Fixpoint answers (env : handlers) (regions : list string)
  : option (list (N * json)) :=
  match regions with
  | [] => Some []
  | r :: rest =>
      match answer env r, answers env rest with
      | Some a, Some others => Some (a :: others)
      | _, _ => None
      end
  end.

(** The results that the analysis receives for these answers. *)
Definition results_of (given : list (N * json)) : list json :=
  map (fun a => task_output (snd a)) given.

(** The instant the last of these answers came. *)
Definition last_answer (now : N) (given : list (N * json)) : N :=
  fold_right (fun a t => N.max (now + fst a) t) now given.

(** The failure of a region in the sampling phase: the error of its branch
    and the delay after which it shows. *)
Definition failure (env : handlers) (region : string) : option (N * string) :=
  match env driftDetectorFunction (compare_payload region) with
  | Returns ms _ => if ms <=? 5000 then None else Some (5000, "States.Timeout")
  | Throws ms err =>
      if ms <=? 5000 then Some (ms, err) else Some (5000, "States.Timeout")
  | Hangs => Some (5000, "States.Timeout")
  end.

(** What shows of a handler's behaviour under a time limit: the delay and
    the result, the error [timeout_error] at the limit when the handler
    has not finished by then. *)
Definition outcome_within (limit : N) (timeout_error : string)
    (b : behaviour) : N * (string + json) :=
  match b with
  | Returns ms response =>
      if ms <=? limit then (ms, inr response) else (limit, inl timeout_error)
  | Throws ms err =>
      if ms <=? limit then (ms, inl err) else (limit, inl timeout_error)
  | Hangs => (limit, inl timeout_error)
  end.

(** ** More of the ConsistencyChecker construct *)

(** The statements of the role policy declared as [id], with the role it
    is attached to. *)
Fixpoint policy_of (id : string) (rs : list resource)
  : option (string * list statement) :=
  match rs with
  | [] => None
  | IamRolePolicy id' _ role policy :: rest =>
      if String.eqb id id' then Some (role, policy) else policy_of id rest
  | _ :: rest => policy_of id rest
  end.

(** The role and the definition of the state machine that is declared. *)
Fixpoint state_machine_of (rs : list resource) : option (string * machine) :=
  match rs with
  | [] => None
  | SfnStateMachine _ _ _ roleArn definition :: _ => Some (roleArn, definition)
  | _ :: rest => state_machine_of rest
  end.

(** The timeout of the Lambda function declared as [id]. *)
Fixpoint declared_timeout (id : string) (rs : list resource) : option N :=
  match rs with
  | [] => None
  | LambdaFunction id' _ _ _ _ _ timeout _ _ _ _ :: rest =>
      if String.eqb id id' then Some timeout else declared_timeout id rest
  | _ :: rest => declared_timeout id rest
  end.

(** The resources on which a policy lists [action] with effect Allow. *)
Definition listed_for (action : string) (policy : list statement)
  : list string :=
  flat_map (fun st =>
              if String.eqb (Effect st) "Allow"
                 && existsb (String.eqb action) (Action st)
              then Resource st else [])
           policy.

(** The actions of a service that a policy lists with effect Allow. *)
Definition actions_of (service : string) (policy : list statement)
  : list string :=
  flat_map (fun st =>
              if String.eqb (Effect st) "Allow"
              then List.filter (String.prefix (service ++ ":")) (Action st)
              else [])
           policy.

Fixpoint has_char (c : ascii) (s : string) : bool :=
  match s with
  | EmptyString => false
  | String d s' => Ascii.eqb c d || has_char c s'
  end.

(** The role of the Lambda function declared as [id]. *)
Fixpoint declared_role (id : string) (rs : list resource) : option string :=
  match rs with
  | [] => None
  | LambdaFunction id' _ _ role _ _ _ _ _ _ _ :: rest =>
      if String.eqb id id' then Some role else declared_role id rest
  | _ :: rest => declared_role id rest
  end.

(** ** The CorrectionSystem construct *)

Module Correction.

Record Props : Type := {
  provider : AwsProvider;
  regions : list string;
  environment : string;
  dynamoTableName : string
}.

End Correction.

(** [buffer.toString('hex')] *)
Definition hex_digit (n : N) : ascii :=
  match n with
  | 0 => "0" | 1 => "1" | 2 => "2" | 3 => "3" | 4 => "4" | 5 => "5"
  | 6 => "6" | 7 => "7" | 8 => "8" | 9 => "9" | 10 => "a" | 11 => "b"
  | 12 => "c" | 13 => "d" | 14 => "e" | _ => "f"
  end%char.

Fixpoint hex (bytes : list Byte.byte) : string :=
  match bytes with
  | [] => EmptyString
  | b :: rest =>
      String (hex_digit (Byte.to_N b / 16))
        (String (hex_digit (Byte.to_N b mod 16)) (hex rest))
  end.

(** A rule of a bucket lifecycle configuration (days). *)
Record lifecycle_rule : Type := {
  rule_id : string;
  rule_status : string;
  filter_prefix : string;
  expiration_days : N;
  noncurrentVersionExpiration_days : N;
  abortIncompleteMultipartUpload_days : N
}.

(** The resources the CorrectionSystem constructor declares: those of the
    snapshot bucket, and the kinds the ConsistencyChecker declares too. *)
Inductive correction_resource : Type :=
| S3Bucket (id : string) (provider : AwsProvider) (bucket : string)
           (forceDestroy : bool) (tags : list (string * string))
| S3BucketServerSideEncryptionConfigurationA
    (id : string) (provider : AwsProvider) (bucket : string)
    (sseAlgorithm : string) (bucketKeyEnabled : bool)
| S3BucketPublicAccessBlock
    (id : string) (provider : AwsProvider) (bucket : string)
    (blockPublicAcls blockPublicPolicy ignorePublicAcls
     restrictPublicBuckets : bool)
| S3BucketVersioningA (id : string) (provider : AwsProvider)
                      (bucket : string) (status : string)
| S3BucketLifecycleConfiguration
    (id : string) (provider : AwsProvider) (bucket : string)
    (rule : list lifecycle_rule)
| Declared (r : resource).

Definition declared (rs : list correction_resource) : list resource :=
  flat_map (fun r => match r with Declared d => [d] | _ => [] end) rs.

Record CorrectionSystemOutput : Type := {
  correction_resources : list correction_resource;
  correction_snapshotBucketArn : string
}.

(** The constructor of CorrectionSystem; [random] is what
    [crypto.randomBytes(4)] returns. *)
Definition CorrectionSystem (props : Correction.Props)
    (random : list Byte.byte) : CorrectionSystemOutput :=
  let env := Correction.environment props in
  let provider := Correction.provider props in
  {| correction_resources :=
       [ S3Bucket "snapshot-bucket" provider
           ("location-snapshots-" ++ env ++ "-" ++ hex random)
           (negb (String.eqb env "production"))
           [ ("Environment", env);
             ("Purpose", "canonical-state-snapshots") ];
         S3BucketServerSideEncryptionConfigurationA "snapshot-encryption"
           provider (attribute "snapshot-bucket" "id") "AES256" true;
         S3BucketPublicAccessBlock "snapshot-public-access-block" provider
           (attribute "snapshot-bucket" "id") true true true true;
         S3BucketVersioningA "snapshot-versioning" provider
           (attribute "snapshot-bucket" "id") "Enabled";
         S3BucketLifecycleConfiguration "snapshot-lifecycle" provider
           (attribute "snapshot-bucket" "id")
           [ {| rule_id := "cleanup-old-snapshots";
                rule_status := "Enabled";
                filter_prefix := EmptyString;
                expiration_days := 90;
                noncurrentVersionExpiration_days := 7;
                abortIncompleteMultipartUpload_days := 1 |} ];
         Declared
           (IamRole "snapshot-role" (Some provider)
              ("snapshot-creator-role-" ++ env ++ "-")
              (assume_role "lambda.amazonaws.com"));
         Declared
           (IamRolePolicy "snapshot-policy" (Some provider)
              (attribute "snapshot-role" "id")
              [ {| Effect := "Allow";
                   Action := ["dynamodb:Scan"; "dynamodb:Query";
                              "dynamodb:BatchGetItem"];
                   Principal := None;
                   Resource :=
                     ["arn:aws:dynamodb:*:*:table/"
                      ++ Correction.dynamoTableName props] |};
                {| Effect := "Allow";
                   Action := ["s3:PutObject"; "s3:PutObjectAcl";
                              "s3:GetObject"];
                   Principal := None;
                   Resource := [attribute "snapshot-bucket" "arn" ++ "/*"] |};
                {| Effect := "Allow";
                   Action := ["logs:CreateLogGroup"; "logs:CreateLogStream";
                              "logs:PutLogEvents"];
                   Principal := None;
                   Resource := ["arn:aws:logs:*:*:*"] |} ]);
         Declared
           (LambdaFunction "snapshot-creator" (Some provider)
              ("location-snapshot-creator-" ++ env)
              (attribute "snapshot-role" "arn")
              "index.handler" "nodejs20.x" 300 3008
              [ ("DYNAMO_TABLE_NAME",
                  Plain (Correction.dynamoTableName props));
                ("SNAPSHOT_BUCKET", Plain (attribute "snapshot-bucket" "id"));
                ("REGIONS",
                  Stringified (JArr (map JStr (Correction.regions props)))) ]
              "../../../lib/placeholder.zip" []);
         Declared (EventRule "snapshot-rule" (Some provider) (snapshotRule env));
         (* the target is given no roleArn *)
         Declared
           (CloudwatchEventTarget "snapshot-target" (Some provider)
              (name (snapshotRule env))
              (attribute "snapshot-creator" "arn") EmptyString) ];
     correction_snapshotBucketArn := attribute "snapshot-bucket" "arn" |}.

(** The rule a construct declares as [id]. *)
Fixpoint declared_rule (id : string) (rs : list resource)
  : option CloudwatchEventRule :=
  match rs with
  | [] => None
  | EventRule id' _ rule :: rest =>
      if String.eqb id id' then Some rule else declared_rule id rest
  | _ :: rest => declared_rule id rest
  end.

(** The instant a run of a scheduled function ends: started at the
    [k]-th firing of [rule], cut at [timeout] seconds. *)
Definition run_end (rule : CloudwatchEventRule) (timeout : N) (k : N)
    (b : behaviour) : N :=
  k * period_ms rule
  + fst (outcome_within (timeout * 1000) "Sandbox.Timedout" b).

Definition example_correction_props : Correction.Props :=
  {| Correction.provider :=
       {| provider_alias := "us-east-1"; provider_region := "us-east-1" |};
     Correction.regions := three_regions;
     Correction.environment := "dev";
     Correction.dynamoTableName := "driver-locations" |}.

(** The props of the ConsistencyChecker as the stack wires them to a
    CorrectionSystem: the bucket ARN is the output of the latter. *)
Definition wired_props (out : CorrectionSystemOutput)
  : ConsistencyCheckerProps :=
  {| providers := providers example_props;
     regions := regions example_props;
     primaryRegion := primaryRegion example_props;
     elastiCacheClusters := elastiCacheClusters example_props;
     snapshotBucketArn := correction_snapshotBucketArn out;
     kinesisStreamArns := kinesisStreamArns example_props;
     environment := environment example_props |}.

(** ** The entry point: the regions of the stack *)

(** A string is the sequence of its code units, all below 256. *)

(** [process.env.NAME || fallback]: an unset or empty variable gives the
    fallback. *)
Definition or_else (value : option string) (fallback : string) : string :=
  match value with
  | Some (String c s) => String c s
  | _ => fallback
  end.

(** [s.split(sep)] for a separator of one character, [acc] being the part
    read since the last separator. *)
Fixpoint split (sep : ascii) (s acc : string) : list string :=
  match s with
  | EmptyString => [acc]
  | String c s' =>
      if Ascii.eqb c sep then acc :: split sep s' EmptyString
      else split sep s' (acc ++ String c EmptyString)
  end.

(** White space and line terminators: tab, line feed, vertical tab, form
    feed, carriage return, space and no-break space. *)
Definition is_white (c : ascii) : bool :=
  let n := N_of_ascii c in
  (n =? 9) || (n =? 10) || (n =? 11) || (n =? 12) || (n =? 13)
  || (n =? 32) || (n =? 160).

Fixpoint trimStart (s : string) : string :=
  match s with
  | EmptyString => EmptyString
  | String c s' => if is_white c then trimStart s' else s
  end.

Fixpoint trimEnd (s : string) : string :=
  match s with
  | EmptyString => EmptyString
  | String c s' =>
      match trimEnd s' with
      | EmptyString => if is_white c then EmptyString
                       else String c EmptyString
      | kept => String c kept
      end
  end.

(** [s.trim()] *)
Definition trim (s : string) : string := trimEnd (trimStart s).

(** The primary region and the regions of the stack, from the variables
    AWS_REGION and REGIONS of the environment:
    [primaryRegion = AWS_REGION || 'us-east-1'],
    [regions = (REGIONS || primaryRegion).split(',').map(r => r.trim())]. *)
Definition tap_regions (AWS_REGION REGIONS : option string)
  : string * list string :=
  let primaryRegion := or_else AWS_REGION "us-east-1" in
  let regionsString := or_else REGIONS primaryRegion in
  (primaryRegion, map trim (split "," regionsString EmptyString)).

Fixpoint count_char (c : ascii) (s : string) : nat :=
  match s with
  | EmptyString => O
  | String d s' => (if Ascii.eqb d c then 1 else 0) + count_char c s'
  end.

(** [parts.join(sep)] *)
Fixpoint join (sep : string) (parts : list string) : string :=
  match parts with
  | [] => EmptyString
  | [p] => p
  | p :: rest => p ++ sep ++ join sep rest
  end.

Definition all_white (s : string) : bool :=
  forallb is_white (list_ascii_of_string s).

Definition starts_black (s : string) : bool :=
  match s with
  | EmptyString => true
  | String c _ => negb (is_white c)
  end.

(** The name of the bucket a CorrectionSystem declares. *)
Fixpoint bucket_of (rs : list correction_resource) : option string :=
  match rs with
  | [] => None
  | S3Bucket _ _ bucket _ _ :: _ => Some bucket
  | _ :: rest => bucket_of rest
  end.

(** The value of a hexadecimal digit, and the bytes a string of such
    digits denotes. *)
Definition unhex_digit (c : ascii) : option N :=
  let n := N_of_ascii c in
  if (48 <=? n) && (n <=? 57) then Some (n - 48)
  else if (97 <=? n) && (n <=? 102) then Some (n - 87)
  else None.

Fixpoint unhex (s : string) : option (list Byte.byte) :=
  match s with
  | EmptyString => Some []
  | String h (String l rest) =>
      match unhex_digit h, unhex_digit l, unhex rest with
      | Some a, Some b, Some bytes =>
          match Byte.of_N (16 * a + b) with
          | Some byte => Some (byte :: bytes)
          | None => None
          end
      | _, _, _ => None
      end
  | String _ EmptyString => None
  end.
(** *** One step of the interpreter, by kind of state *)

Lemma run_succeed n env m cur input now :
  assoc cur (States m) = Some Succeed ->
  run (S n) env m cur input now = Execution (Succeeded input) cur now [].
Proof. intros H. cbn [run]. rewrite H. reflexivity. Qed.

Lemma run_task n env m cur input now f fields timeout tr fs :
  assoc cur (States m) = Some (Task f fields timeout tr) ->
  build_payload fields input = Some fs ->
  run (S n) env m cur input now =
  let r := with_timeout timeout (invoke env f (JObj fs)) in
  let ev := Event cur f (JObj fs) now (now + fst r) (snd r) in
  match snd r with
  | inl e => Execution (Failed e) cur (now + fst r) [ev]
  | inr response =>
      continue n env m cur tr (task_output response) (now + fst r) [ev]
  end.
Proof. intros H1 H2. cbn [run]. rewrite H1, H2. reflexivity. Qed.

Lemma run_task_no_payload n env m cur input now f fields timeout tr :
  assoc cur (States m) = Some (Task f fields timeout tr) ->
  build_payload fields input = None ->
  run (S n) env m cur input now =
  Execution (Failed "States.ParameterPathFailure") cur now [].
Proof. intros H1 H2. cbn [run]. rewrite H1, H2. reflexivity. Qed.

Lemma run_choice n env m cur input now rules default :
  assoc cur (States m) = Some (Choice rules default) ->
  run (S n) env m cur input now =
  match choose rules input, default with
  | Chosen name, _ => run n env m name input now
  | NoMatch, Some name => run n env m name input now
  | NoMatch, None => Execution (Failed "States.NoChoiceMatched") cur now []
  | InvalidPath, _ => Execution (Failed "States.Runtime") cur now []
  end.
Proof. intros H. cbn [run]. rewrite H. reflexivity. Qed.

Lemma run_parallel n env m cur input now branches tr :
  assoc cur (States m) = Some (Parallel branches tr) ->
  run (S n) env m cur input now =
  let rs := map (fun b => run n env b (StartAt b) input now) branches in
  let evs := concat (map exec_trace rs) in
  match outputs rs with
  | Some outs => continue n env m cur tr (JArr outs) (latest now rs) evs
  | None =>
      match first_failure rs with
      | Some (s, t) => Execution s cur t evs
      | None => Execution (Failed "States.Runtime") cur now evs
      end
  end.
Proof. intros H. cbn [run]. rewrite H. reflexivity. Qed.

Lemma run_check_region n env input now region :
  run (S n) env
      (Machine (CheckRegion region)
         [ (CheckRegion region,
             Task driftDetectorFunction
               [ ("region", Lit (JStr region));
                 ("action", Lit (JStr "compare")) ]
               (Some 5) End) ])
      (CheckRegion region) input now
  = check_region env now region.
Proof.
  erewrite run_task; cycle 1.
  - cbn [States assoc]. rewrite String.eqb_refl. reflexivity.
  - reflexivity.
  - unfold check_region, compare_payload, continue. reflexivity.
Qed.

Lemma run_correct_drift n regions env out now :
  run (S n) env (stateMachineDefinition regions) "CorrectDrift" out now
  = correct_drift env out now.
Proof.
  unfold correct_drift.
  destruct (json_path ["Payload"; "driftRegions"] out) as [dr|] eqn:Hdr.
  - destruct (json_path ["Payload"; "canonicalState"] out) as [cs|] eqn:Hcs.
    + erewrite run_task; cycle 1.
      * reflexivity.
      * cbn [build_payload]. rewrite Hdr, Hcs. reflexivity.
      * reflexivity.
    + erewrite run_task_no_payload; [reflexivity | reflexivity |].
      cbn [build_payload]. rewrite Hdr, Hcs. reflexivity.
  - erewrite run_task_no_payload; [reflexivity | reflexivity |].
    cbn [build_payload]. rewrite Hdr. reflexivity.
Qed.

Lemma run_drift_detected n regions env out now :
  run (S (S n)) env (stateMachineDefinition regions) "DriftDetected?" out now
  = drift_detected env out now.
Proof.
  erewrite run_choice by reflexivity.
  unfold drift_detected. cbn [choose Variable_ BooleanEquals ChoiceNext].
  destruct (json_path ["Payload"; "driftDetected"] out) as [[| [|] | | | |]|];
    cbn [Bool.eqb];
    first [ apply run_correct_drift
          | erewrite run_succeed by reflexivity; reflexivity
          | reflexivity ].
Qed.

Lemma run_analyze_drift n regions env results now :
  run (S (S (S n))) env (stateMachineDefinition regions) "AnalyzeDrift"
      (JArr results) now
  = analyze_drift env results now.
Proof.
  erewrite run_task; [| reflexivity | reflexivity].
  unfold analyze_drift, analyze_payload, continue.
  cbv zeta. destruct (snd _); [reflexivity |].
  rewrite run_drift_detected. reflexivity.
Qed.

(** The interpreter on the definition is the composition of the phases:
    the input of the schedule is not read by any state, and five steps of
    fuel, or more, reach the end. *)
Lemma run_phases n regions env input now :
  run (5 + n) env (stateMachineDefinition regions) "CompareRegions" input now
  = phases regions env now.
Proof.
  unfold phases. cbn [Nat.add].
  erewrite run_parallel by reflexivity.
  rewrite map_map.
  erewrite (map_ext _ (check_region env now))
    by (intros; apply run_check_region).
  cbv zeta. destruct (outputs _); [| reflexivity].
  unfold continue. rewrite run_analyze_drift. reflexivity.
Qed.

Lemma cycle_phases regions env input now :
  cycle regions env input now = phases regions env now.
Proof. apply (run_phases 0). Qed.

Lemma with_timeout_some s r : fst (with_timeout (Some s) r) <= s * 1000.
Proof.
  unfold with_timeout. destruct (fst r <=? s * 1000) eqn:H; cbn [fst].
  - apply N.leb_le in H. exact H.
  - lia.
Qed.

Lemma invoke_bound env f p : fst (invoke env f p) <= lambda_timeout f * 1000.
Proof.
  unfold invoke. destruct (env f p) as [ms r | ms e |]; cbv zeta;
    try (destruct (ms <=? _) eqn:H; [apply N.leb_le in H |]);
    cbn [fst]; lia.
Qed.

Lemma check_region_trace env now region :
  exists ev,
    exec_trace (check_region env now region) = [ev] /\
    ev_state ev = CheckRegion region /\
    ev_fn ev = driftDetectorFunction /\
    ev_payload ev = compare_payload region /\
    ev_start ev = now /\
    ev_end ev = exec_end (check_region env now region) /\
    ev_end ev <= now + 5000.
Proof.
  unfold check_region. cbv zeta.
  pose proof (with_timeout_some 5
    (invoke env driftDetectorFunction (compare_payload region))) as Hb.
  destruct (snd _); eexists; (repeat split; try reflexivity);
    cbn [ev_end]; lia.
Qed.

Lemma CheckRegion_not_AnalyzeDrift region :
  String.eqb (CheckRegion region) "AnalyzeDrift" = false.
Proof. reflexivity. Qed.

Lemma sampling_events env now regions :
  Forall (fun ev => by_corrector ev = false /\
                    at_state "AnalyzeDrift" ev = false /\
                    ev_start ev = now /\ ev_end ev <= now + 5000)
         (sampling env now regions).
Proof.
  unfold sampling. induction regions as [|r rs IH]; cbn [map concat].
  - constructor.
  - destruct (check_region_trace env now r)
      as (ev & -> & Hs & Hf & _ & Ht & _ & Hb).
    cbn [app]. constructor; [| exact IH].
    unfold by_corrector, at_state. rewrite Hs, Hf.
    split; [reflexivity |].
    split; [apply CheckRegion_not_AnalyzeDrift |].
    split; [exact Ht | exact Hb].
Qed.

Lemma existsb_sampling env now regions l :
  existsb by_corrector (sampling env now regions ++ l) = existsb by_corrector l.
Proof.
  rewrite existsb_app.
  induction (sampling_events env now regions) as [|ev evs (H & _) _ IH];
    cbn [existsb]; [reflexivity | rewrite H; exact IH].
Qed.

Lemma existsb_at_sampling env now regions l :
  existsb (at_state "AnalyzeDrift") (sampling env now regions ++ l)
  = existsb (at_state "AnalyzeDrift") l.
Proof.
  rewrite existsb_app.
  induction (sampling_events env now regions) as [|ev evs (_ & H & _) _ IH];
    cbn [existsb]; [reflexivity | rewrite H; exact IH].
Qed.

Lemma find_sampling env now regions l :
  find (at_state "AnalyzeDrift") (sampling env now regions ++ l)
  = find (at_state "AnalyzeDrift") l.
Proof.
  induction (sampling_events env now regions) as [|ev evs (_ & H & _) _ IH];
    cbn [app find]; [reflexivity | rewrite H; exact IH].
Qed.


(** *** The sampling phase *)

Lemma check_region_status env now region :
  match exec_status (check_region env now region) with
  | Succeeded _ => sampled env region = true
  | Failed _ => sampled env region = false
  | OutOfFuel => False
  end.
Proof.
  unfold check_region, sampled, with_timeout, invoke. cbv zeta.
  change (lambda_timeout driftDetectorFunction * 1000) with 60000.
  change (5 * 1000) with 5000.
  destruct (env driftDetectorFunction (compare_payload region))
    as [ms r | ms e |].
  - destruct (ms <=? 60000) eqn:H1; cbn [fst snd].
    + destruct (ms <=? 5000) eqn:H2; cbn [snd exec_status]; reflexivity.
    + change (60000 <=? 5000) with false. cbn [snd exec_status].
      apply N.leb_gt. apply N.leb_gt in H1. lia.
  - destruct (ms <=? 60000) eqn:H1; cbn [fst snd].
    + destruct (ms <=? 5000); reflexivity.
    + reflexivity.
  - reflexivity.
Qed.

Lemma outputs_sampled env now regions :
  match outputs (map (check_region env now) regions) with
  | Some _ => forallb (sampled env) regions = true
  | None => forallb (sampled env) regions = false
  end.
Proof.
  induction regions as [|r rs IH]; cbn [map outputs forallb]; [reflexivity |].
  pose proof (check_region_status env now r) as H.
  destruct (exec_status (check_region env now r)).
  - rewrite H. destruct (outputs _); exact IH.
  - rewrite H. reflexivity.
  - destruct H.
Qed.

Lemma check_region_end env now region :
  now <= exec_end (check_region env now region) <= now + 5000.
Proof.
  pose proof (with_timeout_some 5
    (invoke env driftDetectorFunction (compare_payload region))) as Hb.
  unfold check_region. cbv zeta. destruct (snd _); cbn [exec_end]; lia.
Qed.

Lemma latest_bound env now regions :
  now <= latest now (map (check_region env now) regions) <= now + 5000.
Proof.
  induction regions as [|r rs IH]; cbn [map latest]; [lia |].
  pose proof (check_region_end env now r). lia.
Qed.

Lemma first_failure_sampling env now regions :
  match first_failure (map (check_region env now) regions) with
  | Some (s, t) =>
      (exists err, s = Failed err) /\ t <= now + 5000 /\
      outputs (map (check_region env now) regions) = None
  | None => outputs (map (check_region env now) regions) <> None
  end.
Proof.
  induction regions as [|r rs IH]; cbn [map outputs first_failure];
    [discriminate |].
  pose proof (check_region_status env now r) as Hs.
  pose proof (check_region_end env now r) as He.
  destruct (exec_status (check_region env now r)) as [o | err |];
    [| | destruct Hs].
  - destruct (first_failure _) as [[s' t']|].
    + destruct IH as (H1 & H2 & ->). auto.
    + destruct (outputs _); [discriminate | contradiction].
  - destruct (first_failure _) as [[s' t']|].
    + destruct IH as (H1 & H2 & _).
      destruct (_ <=? t'); repeat split; eauto; lia.
    + repeat split; eauto; lia.
Qed.

(** *** Every cycle has one of the six shapes *)

Lemma json_path_Payload p response :
  json_path ("Payload" :: p) (task_output response) = json_path p response.
Proof. reflexivity. Qed.

Lemma cycle_has_shape regions env input now :
  cycle_shape env now regions (cycle regions env input now).
Proof.
  rewrite cycle_phases. unfold phases. cbv zeta.
  fold (sampling env now regions).
  pose proof (outputs_sampled env now regions) as Ho.
  pose proof (first_failure_sampling env now regions) as Hf.
  pose proof (latest_bound env now regions) as Hl.
  destruct (outputs _) as [results|].
  - clear Hf. unfold analyze_drift. cbv zeta.
    set (t1 := latest now _) in *.
    pose proof (invoke_bound env driftDetectorFunction
                  (analyze_payload results)) as Ha.
    change (lambda_timeout driftDetectorFunction * 1000) with 60000 in Ha.
    change (with_timeout None ?r) with r.
    set (a := invoke env driftDetectorFunction (analyze_payload results)) in *.
    destruct (snd a) as [err | report] eqn:Hres.
    + apply analysis_failed; [exact Ho | lia | lia].
    + unfold drift_detected, after. rewrite json_path_Payload.
      destruct (json_path ["driftDetected"] report) as [v|] eqn:Hv.
      * assert (Hnot : v <> JBool true ->
                  cycle_shape env now regions
                    (Execution (Succeeded (task_output report)) "Success"
                       (t1 + fst a)
                       (sampling env now regions
                        ++ [analyze_event results t1 (t1 + fst a)
                              (inr report)]))).
        { intros Hne. eapply not_detected; eauto; lia. }
        destruct v as [| [|] | | | |];
          try (apply Hnot; discriminate).
        unfold correct_drift. rewrite !json_path_Payload.
        destruct (json_path ["driftRegions"] report) as [dr|] eqn:Hdr.
        -- destruct (json_path ["canonicalState"] report) as [cs|] eqn:Hcs.
           ++ cbv zeta.
              pose proof (with_timeout_some 10
                (invoke env stateCorrectorFunction (correct_payload dr cs)))
                as Hc.
              fold (correct_payload dr cs).
              set (c := with_timeout (Some 10) _) in *.
              replace (match snd c with
                       | inl e => Execution (Failed e) "CorrectDrift"
                                    (t1 + fst a + fst c)
                                    [Event "CorrectDrift" stateCorrectorFunction
                                       (correct_payload dr cs) (t1 + fst a)
                                       (t1 + fst a + fst c) (snd c)]
                       | inr response =>
                           Execution (Succeeded (task_output response))
                             "CorrectDrift" (t1 + fst a + fst c)
                             [Event "CorrectDrift" stateCorrectorFunction
                                (correct_payload dr cs) (t1 + fst a)
                                (t1 + fst a + fst c) (snd c)]
                       end)
                with (Execution (ending (snd c)) "CorrectDrift"
                        (t1 + fst a + fst c)
                        [correct_event dr cs (t1 + fst a)
                           (t1 + fst a + fst c) (snd c)])
                by (destruct (snd c); reflexivity).
              cbn [exec_status exec_last exec_end exec_trace app].
              eapply corrected; eauto; lia.
           ++ cbn [exec_status exec_last exec_end exec_trace app].
              eapply nothing_to_correct; eauto; lia.
        -- cbn [exec_status exec_last exec_end exec_trace app].
           eapply nothing_to_correct; eauto; lia.
      * cbn [exec_status exec_last exec_end exec_trace app].
        eapply flag_missing; eauto; lia.
  - destruct (first_failure _) as [[s t]|]; [| congruence].
    destruct Hf as ((err & ->) & Ht & _).
    apply sampling_failed; assumption.
Qed.

(** *** Observations on the shapes *)

Lemma existsb_sampling_nil env now regions :
  existsb by_corrector (sampling env now regions) = false.
Proof.
  rewrite <- (app_nil_r (sampling env now regions)).
  apply existsb_sampling.
Qed.

Lemma existsb_at_sampling_nil env now regions :
  existsb (at_state "AnalyzeDrift") (sampling env now regions) = false.
Proof.
  rewrite <- (app_nil_r (sampling env now regions)).
  apply existsb_at_sampling.
Qed.

Lemma find_sampling_nil env now regions :
  find (at_state "AnalyzeDrift") (sampling env now regions) = None.
Proof.
  rewrite <- (app_nil_r (sampling env now regions)).
  apply find_sampling.
Qed.

Ltac observe :=
  unfold corrector_invoked, analyzer_invoked, DriftReport_of;
  cbn [exec_trace exec_status exec_last exec_end];
  rewrite ?existsb_sampling, ?existsb_at_sampling, ?find_sampling,
    ?existsb_sampling_nil, ?existsb_at_sampling_nil, ?find_sampling_nil;
  cbn [existsb find ev_result orb].

Ltac by_shape regions env input now :=
  let H := fresh "Hshape" in
  pose proof (cycle_has_shape regions env input now) as H;
  cbv zeta;
  generalize dependent (cycle regions env input now);
  intros e H; destruct H; observe.

Example drifted_cycle :
  let e := cycle three_regions two_regions_drifted (JObj []) 0 in
  exec_last e = "CorrectDrift" /\ exec_end e = 5000 /\
  length (exec_trace e) = 5%nat /\
  (severity_of <$> DriftReport_of e) = Some Minor.
Proof. vm_compute. repeat split. Qed.

Example silent_region_cycle :
  let e := cycle three_regions one_region_silent (JObj []) 0 in
  exec_status e = Failed "States.Timeout" /\
  exec_last e = "CompareRegions" /\ exec_end e = 5000 /\
  length (exec_trace e) = 3%nat.
Proof. vm_compute. repeat split. Qed.

(** C1 (amended).  Correction is gated on the flag of the report, not on
    its severity: the state corrector is invoked exactly when AnalyzeDrift
    returned a report whose [driftDetected] is the boolean true and whose
    [driftRegions] and [canonicalState] are present; with any other value
    of [driftDetected] the execution ends in Success on the report,
    without correction. *)
Theorem correction_gated_on_driftDetected regions env input now :
  let e := cycle regions env input now in
  (corrector_invoked e = true <->
   exists report,
     DriftReport_of e = Some report /\
     json_path ["driftDetected"] report = Some (JBool true) /\
     is_Some (json_path ["driftRegions"] report) /\
     is_Some (json_path ["canonicalState"] report))
  /\
  (forall report v,
     DriftReport_of e = Some report ->
     json_path ["driftDetected"] report = Some v -> v <> JBool true ->
     corrector_invoked e = false /\
     exec_status e = Succeeded (task_output report) /\
     exec_last e = "Success").
Proof.
  by_shape regions env input now.
  - split; [split; [discriminate | intros (r & Hr & _); discriminate] |].
    intros r v Hr. discriminate.
  - split; [split; [discriminate | intros (r & Hr & _); discriminate] |].
    intros r v Hr. discriminate.
  - split.
    + split; [discriminate |]. intros (r & [= <-] & Hr & _). congruence.
    + intros r v [= <-]. congruence.
  - split.
    + split; [discriminate |]. intros (r & [= <-] & Hr & _). congruence.
    + intros r v' [= <-] Hv' Hne. auto.
  - split.
    + split; [discriminate |].
      intros (r & [= <-] & _ & [dr Hdr] & [cs Hcs]).
      destruct H3; congruence.
    + intros r v [= <-]. congruence.
  - split.
    + split; [| reflexivity]. intros _. exists report.
      repeat split; eauto.
    + intros r v [= <-]. congruence.
Qed.

Lemma correction_gated_on_driftDetected_witness :
  corrector_invoked (cycle three_regions two_regions_drifted (JObj []) 0)
  = true.
Proof.
  apply (correction_gated_on_driftDetected
           three_regions two_regions_drifted (JObj []) 0).
  eexists. split; [vm_compute; reflexivity |].
  split; [reflexivity |]. split; eexists; reflexivity.
Defined.

(** C1 as worded fails: a report that implicates two regions (severity
    Minor) with [driftDetected] set is corrected. *)
Lemma minor_drift_is_corrected :
  ~ corrects_exactly_major
      (cycle three_regions two_regions_drifted (JObj []) 0).
Proof.
  intros [H _].
  destruct H as (report & Hr & Hs); [vm_compute; reflexivity |].
  vm_compute in Hr. injection Hr as <-.
  vm_compute in Hs. discriminate.
Qed.

(** C2 (amended).  CorrectDrift is the end of the execution: when the
    state corrector is invoked, its invocation is the last event of the
    cycle, the execution ends with it, succeeds when it returns within its
    10 seconds and fails otherwise; no verification follows. *)
Theorem correction_ends_the_cycle regions env input now :
  let e := cycle regions env input now in
  corrector_invoked e = true ->
  exists (pre : list event) (ev : event),
    exec_trace e = (pre ++ [ev])%list /\
    by_corrector ev = true /\
    existsb by_corrector pre = false /\
    ev_end ev <= ev_start ev + 10000 /\
    exec_last e = "CorrectDrift" /\
    exec_end e = ev_end ev /\
    exec_status e = ending (ev_result ev).
Proof.
  by_shape regions env input now; try discriminate.
  intros _.
  exists (sampling env now regions
          ++ [analyze_event results t1 t2 (inr report)])%list,
         (correct_event dr cs t2 t3 res).
  rewrite <- app_assoc. cbn [app].
  rewrite existsb_sampling.
  repeat split; cbn [ev_end ev_start correct_event]; lia.
Qed.

Lemma correction_ends_the_cycle_witness :
  exists (pre : list event) (ev : event),
    exec_trace (cycle three_regions two_regions_drifted (JObj []) 0)
    = (pre ++ [ev])%list /\ by_corrector ev = true.
Proof.
  destruct (correction_ends_the_cycle
              three_regions two_regions_drifted (JObj []) 0)
    as (pre & ev & H1 & H2 & _); [vm_compute; reflexivity |].
  exists pre, ev. split; assumption.
Defined.

(** C2 as worded fails: the corrector returns and nothing is invoked after
    it. *)
Lemma no_verification_after_correction :
  ~ verification_follows
      (cycle three_regions two_regions_drifted (JObj []) 0).
Proof.
  intros H.
  pose (e := cycle three_regions two_regions_drifted (JObj []) 0).
  assert (Ht : exists pre ev,
             exec_trace e = (pre ++ ev :: [])%list /\ by_corrector ev = true).
  { vm_compute. eexists [_; _; _; _], _. split; reflexivity. }
  destruct Ht as (pre & ev & Ht & Hc).
  destruct (H pre ev [] Ht Hc) as (v & [] & _).
Qed.

(** C5 (amended).  Sampling is bounded by the 5-second timeout of each
    branch, and it is all or nothing: the analysis runs exactly when every
    region answered within its 5 seconds, and it starts no later than 5
    seconds into the cycle; when some region did not, the execution fails
    in CompareRegions within those 5 seconds, without analysis and without
    correction. *)
Theorem sampling_bounded_all_or_nothing regions env input now :
  let e := cycle regions env input now in
  analyzer_invoked e = forallb (sampled env) regions /\
  (forall ev, In ev (exec_trace e) -> at_state "AnalyzeDrift" ev = true ->
              ev_start ev <= now + 5000) /\
  (forallb (sampled env) regions = false ->
   (exists err, exec_status e = Failed err) /\
   exec_last e = "CompareRegions" /\
   exec_end e <= now + 5000 /\
   corrector_invoked e = false).
Proof.
  assert (Hs : forall l ev,
             In ev (sampling env now regions ++ l)%list ->
             at_state "AnalyzeDrift" ev = true -> In ev l).
  { intros l ev [Hin | Hin]%in_app_or Hat; [| exact Hin].
    pose proof (sampling_events env now regions) as Hall.
    rewrite Forall_forall in Hall.
    rewrite <- list_elem_of_In in Hin.
    destruct (Hall ev Hin) as (_ & Hno & _). congruence. }
  by_shape regions env input now.
  - split; [symmetry; assumption |]. split; [| eauto 6].
    intros ev Hin Hat. rewrite <- (app_nil_r (sampling _ _ _)) in Hin.
    destruct (Hs _ _ Hin Hat).
  - split; [symmetry; assumption |]. split; [| congruence].
    intros ev Hin Hat. destruct (Hs _ _ Hin Hat) as [<- | []].
    cbn [ev_start analyze_event]. lia.
  - split; [symmetry; assumption |]. split; [| congruence].
    intros ev Hin Hat. destruct (Hs _ _ Hin Hat) as [<- | []].
    cbn [ev_start analyze_event]. lia.
  - split; [symmetry; assumption |]. split; [| congruence].
    intros ev Hin Hat. destruct (Hs _ _ Hin Hat) as [<- | []].
    cbn [ev_start analyze_event]. lia.
  - split; [symmetry; assumption |]. split; [| congruence].
    intros ev Hin Hat. destruct (Hs _ _ Hin Hat) as [<- | []].
    cbn [ev_start analyze_event]. lia.
  - split; [symmetry; assumption |]. split; [| congruence].
    intros ev Hin Hat. destruct (Hs _ _ Hin Hat) as [<- | [<- | []]].
    + cbn [ev_start analyze_event]. lia.
    + discriminate Hat.
Qed.

Lemma sampling_bounded_all_or_nothing_witness :
  exec_last (cycle three_regions one_region_silent (JObj []) 0)
  = "CompareRegions".
Proof.
  apply (sampling_bounded_all_or_nothing
           three_regions one_region_silent (JObj []) 0).
  vm_compute. reflexivity.
Defined.

(** C5 as worded fails: one of three regions never answers, the other two
    agree, and the execution fails without running the analysis. *)
Lemma one_timeout_fails_the_cycle : ~ tolerates_one_timeout.
Proof.
  intros H.
  destruct (H "us-east-1" "eu-west-1" "ap-south-1" one_region_silent
              (JObj []) 0) as [Ha _]; try reflexivity.
  vm_compute in Ha. discriminate.
Qed.

(** ** The schedule of the cycles *)


Example snapshots_every_hour environment :
  rate_seconds (scheduleExpression (snapshotRule environment)) = Some 3600.
Proof. reflexivity. Qed.

Example invalid_rate : rate_seconds "rate(0 minutes)" = None.
Proof. reflexivity. Qed.






(** ** The deployment of the drift-detection path *)

(** C10.  The drift-detection path is centralized: whatever the regions,
    the constructor declares the same nine resources, among them one
    drift detector, one state corrector, one state machine and one
    schedule, all with the provider of the primary region, and the
    ELASTICACHE_ENDPOINT of the drift detector is the endpoint of the
    cluster of the first region of the list. *)
Theorem drift_detection_is_centralized props rs :
  ConsistencyChecker props = Some rs ->
  Forall (fun r => resource_provider r
                   = providers props !! primaryRegion props) rs /\
  map resource_id rs =
    [ "drift-detector-role"; "drift-detector-policy"; "drift-detector";
      "state-corrector"; "step-functions-role"; "step-functions-policy";
      "consistency-state-machine"; "consistency-check-rule";
      "consistency-check-target" ] /\
  exists first cluster,
    regions props !! 0%nat = Some first /\
    elastiCacheClusters props !! first = Some cluster /\
    lambda_variable "drift-detector" "ELASTICACHE_ENDPOINT" rs
    = Some (Plain (configurationEndpointAddress cluster)).
Proof.
  unfold ConsistencyChecker.
  destruct (regions props !! 0%nat) as [first|] eqn:Hfirst; [| discriminate].
  destruct (elastiCacheClusters props !! first) as [cluster|] eqn:Hc;
    [| discriminate].
  intros [= <-]. split; [| split].
  - repeat constructor.
  - reflexivity.
  - exists first, cluster. repeat split; assumption || reflexivity.
Qed.

Lemma drift_detection_is_centralized_witness :
  exists rs,
    ConsistencyChecker example_props = Some rs /\
    lambda_variable "drift-detector" "ELASTICACHE_ENDPOINT" rs
    = Some (Plain "cache.eu-west-1.example") /\
    Forall (fun r => resource_provider r
                     = Some {| provider_alias := "us-east-1";
                               provider_region := "us-east-1" |}) rs.
Proof.
  eexists. split; [reflexivity |].
  destruct (drift_detection_is_centralized example_props _ eq_refl)
    as (Hp & _ & first & cluster & Hf & Hc & Hv).
  split.
  - rewrite Hv. injection Hf as <-. vm_compute in Hc.
    injection Hc as <-. reflexivity.
  - exact Hp.
Defined.

(** ** The analysis of agreeing regions *)

Lemma Qmax_lub (a b c : Q) : (a <= c)%Q -> (b <= c)%Q -> (Qmax a b <= c)%Q.
Proof. intros Ha Hb. unfold Qmax. destruct (Qle_bool a b); assumption. Qed.

Lemma fold_Qmax_le (c : Q) (l : list Q) :
  (0 # 1 <= c)%Q -> Forall (fun q => (q <= c)%Q) l ->
  (fold_right Qmax (0 # 1) l <= c)%Q.
Proof.
  intros Hc Hl. induction Hl as [|q l Hq _ IH]; cbn [fold_right];
    [exact Hc | apply Qmax_lub; assumption].
Qed.

Lemma pairs_In {A : Type} (l : list A) (a b : A) :
  In (a, b) (pairs l) -> In a l /\ In b l.
Proof.
  induction l as [|x l IH]; cbn [pairs]; [intros [] |].
  intros [H | H]%in_app_or.
  - apply in_map_iff in H as (y & [= <- <-] & Hy). split; [left | right]; auto.
  - destruct (IH H). split; right; assumption.
Qed.

Lemma sightings_In (d r : string) (x : LocationSample)
    (us : list RegionSnapshot) :
  In (r, x) (sightings d us) ->
  exists s, In s us /\ In x (samples s) /\ driverID x = d.
Proof.
  unfold sightings. intros (s & Hs & Hx)%in_flat_map.
  destruct (find _ (samples s)) as [y|] eqn:Hy; [| destruct Hx].
  destruct Hx as [[= <- <-] | []].
  apply find_some in Hy as [Hin Heq]. apply String.eqb_eq in Heq.
  exists s. auto.
Qed.

Lemma filter_map_none {A B : Type} (f : B -> bool) (g : A -> B)
    (l : list A) :
  (forall x, f (g x) = false) -> List.filter f (map g l) = [].
Proof.
  intros H. induction l as [|x l IH]; cbn [map List.filter];
    [reflexivity | rewrite H; exact IH].
Qed.

Example three_regions_diverge :
  let report := analyze flat_distance "cycle-1" diverging_snapshots in
  severity report = Major /\
  affectedRegions report = ["us-east-1"; "eu-west-1"; "ap-south-1"] /\
  driftedDriverCount report = 1%nat.
Proof. vm_compute. repeat split. Qed.

Example one_region_unavailable :
  let report := analyze flat_distance "cycle-1" agreeing_snapshots in
  severity report = SevNone /\ confident report = true /\
  sampleSize report = 1%nat.
Proof. vm_compute. repeat split. Qed.

Section Agreement.

Variable haversine : Q * Q -> Q * Q -> Q.
Hypothesis haversine_same : forall p, (haversine p p == 0)%Q.

Lemma identical_not_exceeding snapshots d :
  identical_positions snapshots ->
  exceeds (maxDistanceMeters
             (drift_record haversine d (usable snapshots))) = false.
Proof.
  intros Hid. unfold exceeds, drift_record. cbn [maxDistanceMeters].
  apply negb_false_iff, Qle_bool_iff, fold_Qmax_le; [discriminate |].
  apply Forall_forall. intros q Hq.
  apply list_elem_of_In in Hq.
  apply in_map_iff in Hq as ([[r1 x1] [r2 x2]] & <- & Hp).
  apply pairs_In in Hp as [H1 H2].
  apply sightings_In in H1 as (s1 & Hs1 & Hx1 & Hd1).
  apply sightings_In in H2 as (s2 & Hs2 & Hx2 & Hd2).
  unfold distance. cbn [fst snd].
  rewrite (Hid s1 s2 x1 x2 Hs1 Hs2 Hx1 Hx2) by congruence.
  rewrite haversine_same. discriminate.
Qed.

(** C7.  When all usable regions report identical positions for every
    driver, and the distance of a position to itself is zero, the
    analysis returns a report of severity None. *)
Theorem identical_samples_no_drift cycle_id snapshots :
  identical_positions snapshots ->
  severity (analyze haversine cycle_id snapshots) = SevNone.
Proof.
  intros Hid. unfold analyze. cbv zeta.
  destruct (length (usable snapshots) <? 2)%nat; [reflexivity |].
  cbn [severity].
  rewrite (filter_map_none (fun r => exceeds (maxDistanceMeters r))).
  - reflexivity.
  - intros d. apply identical_not_exceeding. exact Hid.
Qed.

End Agreement.

Lemma flat_distance_same p : (flat_distance p p == 0)%Q.
Proof.
  unfold flat_distance.
  assert (H : forall x : Q, (Qabs (x - x) == 0)%Q).
  { intros x. assert (E : (x - x == 0)%Q) by ring. rewrite E. reflexivity. }
  rewrite !H. ring.
Qed.

Lemma identical_samples_no_drift_witness :
  severity (analyze flat_distance "cycle-1" agreeing_snapshots) = SevNone.
Proof.
  apply (identical_samples_no_drift flat_distance flat_distance_same).
  intros s1 s2 x1 x2 H1 H2 Hx1 Hx2 _.
  cbn in H1, H2.
  destruct H1 as [<- | [<- | []]]; destruct H2 as [<- | [<- | []]];
    destruct Hx1 as [<- | []]; destruct Hx2 as [<- | []]; reflexivity.
Defined.

(** ** Propagation is last-write-wins *)

Lemma Publish_lookup (s : LocationSample) (w : caches) (k : string * string) :
  Publish s w !! k = if decide (cell_of s = k) then lww (w !! k) s else w !! k.
Proof.
  unfold Publish. fold (cell_of s).
  destruct (decide (cell_of s = k)) as [<- | Hne].
  - unfold lww. destruct (w !! cell_of s) as [old|] eqn:Hold.
    + destruct (observedAtMillis s <? observedAtMillis old)%Z;
        [exact Hold | apply lookup_insert_eq].
    + apply lookup_insert_eq.
  - destruct (w !! cell_of s) as [old|];
      [destruct (observedAtMillis s <? observedAtMillis old)%Z |];
      try reflexivity; apply lookup_insert_ne; exact Hne.
Qed.

Lemma publish_all_lookup (l : list LocationSample) (w : caches)
    (k : string * string) :
  publish_all l w !! k
  = fold_left lww (List.filter (fun s => bool_decide (cell_of s = k)) l)
              (w !! k).
Proof.
  unfold publish_all. revert w.
  induction l as [|s l IH]; intros w; cbn [fold_left List.filter];
    [reflexivity |].
  rewrite IH, Publish_lookup.
  destruct (decide (cell_of s = k)) as [He | Hne].
  - rewrite bool_decide_eq_true_2 by exact He. reflexivity.
  - rewrite bool_decide_eq_false_2 by exact Hne. reflexivity.
Qed.

Lemma lww_fold_None (l : list LocationSample) (cell : option LocationSample) :
  fold_left lww l cell = None -> l = [] /\ cell = None.
Proof.
  revert cell. induction l as [|s l IH]; intros cell; cbn [fold_left];
    [auto |].
  intros H. apply IH in H as [_ H]. unfold lww in H.
  destruct cell as [old|]; [| discriminate].
  destruct (_ <? _)%Z; discriminate.
Qed.

Lemma lww_fold_Some (l : list LocationSample)
    (cell : option LocationSample) (x : LocationSample) :
  fold_left lww l cell = Some x ->
  (cell = Some x \/ In x l) /\
  (forall y, cell = Some y -> (observedAtMillis y <= observedAtMillis x)%Z) /\
  (forall y, In y l -> (observedAtMillis y <= observedAtMillis x)%Z).
Proof.
  revert cell. induction l as [|s l IH]; intros cell; cbn [fold_left].
  - intros ->. split; [auto |]. split; [| intros y []].
    intros y [= ->]. lia.
  - intros H. apply IH in H as (Hfrom & Hcell & Hl).
    assert (Hs : (observedAtMillis s <= observedAtMillis x)%Z /\
                 (forall y, cell = Some y ->
                            (observedAtMillis y <= observedAtMillis x)%Z) /\
                 (lww cell s = Some x -> cell = Some x \/ s = x)).
    { unfold lww in *. destruct cell as [old|].
      - destruct (observedAtMillis s <? observedAtMillis old)%Z eqn:Hlt.
        + apply Z.ltb_lt in Hlt. specialize (Hcell old eq_refl).
          split; [lia |]. split; [intros y [= ->]; lia | auto].
        + apply Z.ltb_ge in Hlt. specialize (Hcell s eq_refl).
          split; [lia |]. split; [intros y [= ->]; lia |].
          intros [= ->]. auto.
      - specialize (Hcell s eq_refl).
        split; [lia |]. split; [discriminate |]. intros [= ->]. auto. }
    destruct Hs as (Hs1 & Hs2 & Hs3).
    split; [| split].
    + destruct Hfrom as [Hfrom | Hfrom]; [| right; right; exact Hfrom].
      destruct (Hs3 Hfrom) as [-> | ->]; [left | right; left]; reflexivity.
    + exact Hs2.
    + intros y [<- | Hy]; [exact Hs1 | apply Hl; exact Hy].
Qed.

Lemma lww_fold_idempotent (l : list LocationSample)
    (cell : option LocationSample) :
  fold_left lww l (fold_left lww l cell) = fold_left lww l cell.
Proof.
  revert cell. induction l as [|r l IH] using rev_ind; intros cell;
    [reflexivity |].
  rewrite !fold_left_app. cbn [fold_left].
  destruct (fold_left lww l cell) as [u|] eqn:Hu.
  - destruct (observedAtMillis r <? observedAtMillis u)%Z eqn:Hlt.
    + assert (E : lww (Some u) r = Some u)
        by (unfold lww; rewrite Hlt; reflexivity).
      pose proof (IH cell) as H. rewrite Hu in H.
      rewrite E, H. exact E.
    + assert (E : lww (Some u) r = Some r)
        by (unfold lww; rewrite Hlt; reflexivity).
      rewrite E. apply Z.ltb_ge in Hlt.
      destruct (fold_left lww l (Some r)) as [x|] eqn:Hx;
        [| apply lww_fold_None in Hx as [_ Hx]; discriminate].
      apply lww_fold_Some in Hx as (Hfrom & Hge & _).
      specialize (Hge r eq_refl).
      assert (Hle : (observedAtMillis x <= observedAtMillis r)%Z).
      { destruct Hfrom as [[= ->] | Hin]; [lia |].
        apply lww_fold_Some in Hu as (_ & _ & Hl).
        specialize (Hl x Hin). lia. }
      unfold lww.
      destruct (observedAtMillis r <? observedAtMillis x)%Z eqn:Hrx;
        [apply Z.ltb_lt in Hrx; lia | reflexivity].
  - apply lww_fold_None in Hu as [-> ->]. cbn [fold_left lww].
    rewrite Z.ltb_irrefl. reflexivity.
Qed.

Lemma publish_all_idempotent (l : list LocationSample) (w : caches) :
  publish_all l (publish_all l w) = publish_all l w.
Proof.
  apply map_eq. intros k.
  rewrite !publish_all_lookup. apply lww_fold_idempotent.
Qed.

Lemma apply_plan_positions (acks : LocationSample -> bool)
    (plan : CorrectionPlan) (w : caches) :
  fst (apply_plan acks plan w)
  = publish_all (List.filter acks (deliveries plan)) w.
Proof.
  unfold apply_plan, publish_all.
  generalize {| applied := 0; failed := [] |}. revert w.
  induction (deliveries plan) as [|s l IH]; intros w o;
    cbn [fold_left List.filter]; [reflexivity |].
  destruct (acks s); cbn [fst snd]; apply IH.
Qed.

(** C9.  Applying the same plan twice leaves the driver positions of the
    regional caches as one application does, whatever the caches held and
    whichever publications the Propagator acknowledges, as propagation is
    last-write-wins by the timestamp of the record. *)
Theorem apply_plan_idempotent (acks : LocationSample -> bool)
    (plan : CorrectionPlan) (w : caches) :
  fst (apply_plan acks plan (fst (apply_plan acks plan w)))
  = fst (apply_plan acks plan w).
Proof. rewrite !apply_plan_positions. apply publish_all_idempotent. Qed.

Example older_record_is_dropped :
  let fresh := {| driverID := "D1"; latitude := 377749 # 10000;
                  longitude := -1224194 # 10000;
                  observedAtMillis := 2000; region := "us-east-1" |} in
  let stale := {| driverID := "D1"; latitude := 377759 # 10000;
                  longitude := -1224294 # 10000;
                  observedAtMillis := 1000; region := "us-east-1" |} in
  Publish stale (Publish fresh ∅) !! ("us-east-1", "D1") = Some fresh.
Proof. reflexivity. Qed.

(** ** A missing or stale canonical snapshot *)

Example bound_is_two_minutes environment :
  staleness_bound environment = 120000.
Proof. reflexivity. Qed.







(** ** More of the workflow *)


Example dangling_transition_rejected :
  well_formed
    (Machine "CorrectDrift"
       [ ("CorrectDrift",
           Task stateCorrectorFunction [] (Some 10) (Next "VerifyCorrection")) ])
  = false.
Proof. reflexivity. Qed.

(** *** The branch of a region, by what its handler does *)

Lemma check_region_answer env now r :
  match answer env r, failure env r with
  | Some (ms, response), None =>
      check_region env now r
      = Execution (Succeeded (task_output response)) (CheckRegion r) (now + ms)
          [Event (CheckRegion r) driftDetectorFunction (compare_payload r)
                 now (now + ms) (inr response)]
  | None, Some (ms, err) =>
      check_region env now r
      = Execution (Failed err) (CheckRegion r) (now + ms)
          [Event (CheckRegion r) driftDetectorFunction (compare_payload r)
                 now (now + ms) (inl err)]
      /\ ms <= 5000
  | _, _ => False
  end.
Proof.
  unfold answer, failure, check_region, with_timeout, invoke. cbv zeta.
  change (lambda_timeout driftDetectorFunction * 1000) with 60000.
  change (5 * 1000) with 5000.
  destruct (env driftDetectorFunction (compare_payload r)) as [ms resp|ms e|].
  - destruct (ms <=? 5000) eqn:H5.
    + apply N.leb_le in H5.
      destruct (ms <=? 60000) eqn:H60; [| apply N.leb_gt in H60; lia].
      cbn [fst snd]. apply N.leb_le in H5. rewrite H5. reflexivity.
    + destruct (ms <=? 60000) eqn:H60; cbn [fst snd].
      * rewrite H5. cbn [fst snd]. split; [reflexivity | lia].
      * change (60000 <=? 5000) with false. cbn [fst snd].
        split; [reflexivity | lia].
  - destruct (ms <=? 5000) eqn:H5.
    + apply N.leb_le in H5.
      destruct (ms <=? 60000) eqn:H60; [| apply N.leb_gt in H60; lia].
      cbn [fst snd]. apply N.leb_le in H5. rewrite H5. cbn [fst snd].
      split; [reflexivity | apply N.leb_le; exact H5].
    + destruct (ms <=? 60000) eqn:H60; cbn [fst snd].
      * rewrite H5. cbn [fst snd]. split; [reflexivity | lia].
      * change (60000 <=? 5000) with false. cbn [fst snd].
        split; [reflexivity | lia].
  - cbn [fst snd]. change (60000 <=? 5000) with false. cbn [fst snd].
    split; [reflexivity | lia].
Qed.

Lemma sampling_answers env now regions :
  match answers env regions with
  | Some given =>
      outputs (map (check_region env now) regions) = Some (results_of given)
      /\ latest now (map (check_region env now) regions)
         = last_answer now given
  | None => outputs (map (check_region env now) regions) = None
  end.
Proof.
  induction regions as [|r rs IH]; cbn [answers map outputs latest];
    [split; reflexivity |].
  pose proof (check_region_answer env now r) as Hr.
  destruct (answer env r) as [[ms resp]|], (failure env r) as [[ms' err]|];
    try contradiction.
  - rewrite Hr. cbn [exec_status exec_end].
    destruct (answers env rs) as [given|].
    + destruct IH as [-> ->]. split; reflexivity.
    + rewrite IH. reflexivity.
  - destruct Hr as [-> _]. reflexivity.
Qed.

(** *** The phases, one by one *)

Lemma cycle_sampled regions env input now given :
  answers env regions = Some given ->
  cycle regions env input now
  = after (sampling env now regions)
      (analyze_drift env (results_of given) (last_answer now given)).
Proof.
  intros Hg. rewrite cycle_phases. unfold phases. cbv zeta.
  pose proof (sampling_answers env now regions) as H. rewrite Hg in H.
  destruct H as [-> ->]. reflexivity.
Qed.

Lemma analyze_drift_outcome env results t1 :
  analyze_drift env results t1 =
  let a := outcome_within 60000 "Sandbox.Timedout"
             (env driftDetectorFunction (analyze_payload results)) in
  match snd a with
  | inl err =>
      Execution (Failed err) "AnalyzeDrift" (t1 + fst a)
        [analyze_event results t1 (t1 + fst a) (inl err)]
  | inr report =>
      after [analyze_event results t1 (t1 + fst a) (inr report)]
        (drift_detected env (task_output report) (t1 + fst a))
  end.
Proof.
  unfold analyze_drift. cbv zeta. change (with_timeout None ?r) with r.
  change (invoke env driftDetectorFunction (analyze_payload results))
    with (outcome_within 60000 "Sandbox.Timedout"
            (env driftDetectorFunction (analyze_payload results))).
  destruct (snd _) eqn:E; rewrite ?E; reflexivity.
Qed.

Lemma corrector_outcome env payload :
  with_timeout (Some 10) (invoke env stateCorrectorFunction payload)
  = outcome_within 10000 "States.Timeout"
      (env stateCorrectorFunction payload).
Proof.
  unfold with_timeout, invoke, outcome_within. cbv zeta.
  change (lambda_timeout stateCorrectorFunction * 1000) with 60000.
  change (10 * 1000) with 10000.
  destruct (env stateCorrectorFunction payload) as [ms r | ms e |].
  - destruct (ms <=? 10000) eqn:H10.
    + apply N.leb_le in H10.
      destruct (ms <=? 60000) eqn:H60; [| apply N.leb_gt in H60; lia].
      cbn [fst]. apply N.leb_le in H10. rewrite H10. reflexivity.
    + destruct (ms <=? 60000); cbn [fst]; [rewrite H10 |]; reflexivity.
  - destruct (ms <=? 10000) eqn:H10.
    + apply N.leb_le in H10.
      destruct (ms <=? 60000) eqn:H60; [| apply N.leb_gt in H60; lia].
      cbn [fst]. apply N.leb_le in H10. rewrite H10. reflexivity.
    + destruct (ms <=? 60000); cbn [fst]; [rewrite H10 |]; reflexivity.
  - reflexivity.
Qed.

Lemma correct_drift_outcome env report t2 :
  correct_drift env (task_output report) t2 =
  match json_path ["driftRegions"] report,
        json_path ["canonicalState"] report with
  | Some dr, Some cs =>
      let c := outcome_within 10000 "States.Timeout"
                 (env stateCorrectorFunction (correct_payload dr cs)) in
      Execution (ending (snd c)) "CorrectDrift" (t2 + fst c)
        [correct_event dr cs t2 (t2 + fst c) (snd c)]
  | _, _ =>
      Execution (Failed "States.ParameterPathFailure") "CorrectDrift" t2 []
  end.
Proof.
  unfold correct_drift. rewrite !json_path_Payload.
  destruct (json_path ["driftRegions"] report) as [dr|]; [| reflexivity].
  destruct (json_path ["canonicalState"] report) as [cs|]; [| reflexivity].
  cbv zeta. fold (correct_payload dr cs). rewrite corrector_outcome.
  destruct (snd _) eqn:E; rewrite ?E; reflexivity.
Qed.

Lemma sampling_length env now regions :
  length (sampling env now regions) = length regions.
Proof.
  unfold sampling. induction regions as [|r rs IH]; cbn [map concat];
    [reflexivity |].
  destruct (check_region_trace env now r) as (ev & -> & _).
  cbn [app length]. rewrite IH. reflexivity.
Qed.

Lemma sampling_fields env now regions :
  map ev_payload (sampling env now regions) = map compare_payload regions /\
  map ev_state (sampling env now regions) = map CheckRegion regions /\
  Forall (fun ev => ev_fn ev = driftDetectorFunction /\ ev_start ev = now)
         (sampling env now regions).
Proof.
  unfold sampling. induction regions as [|r rs (IH1 & IH2 & IH3)];
    cbn [map concat]; [repeat split; constructor |].
  destruct (check_region_trace env now r)
    as (ev & -> & Hs & Hf & Hp & Ht & _).
  cbn [app map]. rewrite IH1, IH2, Hs, Hp.
  repeat split. constructor; [split; assumption | exact IH3].
Qed.

Lemma in_after_sampling env now regions l ev :
  In ev (sampling env now regions ++ l) ->
  by_corrector ev = true \/ at_state "AnalyzeDrift" ev = true -> In ev l.
Proof.
  intros [Hin | Hin]%in_app_or Hor; [| exact Hin].
  pose proof (sampling_events env now regions) as Hall.
  rewrite Forall_forall in Hall. rewrite <- list_elem_of_In in Hin.
  destruct (Hall ev Hin) as (H1 & H2 & _). destruct Hor; congruence.
Qed.

(** X2.  Every execution of the definition terminates: five steps of the
    interpreter reach its end, more steps change nothing, and it makes at
    most two invocations besides the one of each region. *)
Theorem execution_terminates n regions env input now :
  let e := cycle regions env input now in
  run (5 + n) env (stateMachineDefinition regions) "CompareRegions" input now
  = e /\
  exec_status e <> OutOfFuel /\
  (length (exec_trace e) <= length regions + 2)%nat.
Proof.
  cbv zeta. split; [rewrite run_phases, cycle_phases; reflexivity |].
  pose proof (sampling_length env now regions) as Hlen.
  pose proof (cycle_has_shape regions env input now) as H.
  destruct H; cbn [exec_status exec_trace];
    rewrite ?length_app, ?Hlen; cbn [length];
    (split; [try discriminate | lia]).
  destruct res; discriminate.
Qed.

Lemma firstn_skipn_sampling env now regions l :
  firstn (length regions) (sampling env now regions ++ l)
  = sampling env now regions /\
  skipn (length regions) (sampling env now regions ++ l) = l.
Proof.
  rewrite <- (sampling_length env now regions). split.
  - rewrite firstn_app, Nat.sub_diag, firstn_all. cbn [firstn].
    apply app_nil_r.
  - rewrite skipn_app, Nat.sub_diag, skipn_all. reflexivity.
Qed.

(** X3.  The sampling phase invokes the drift detector once for every
    region of the list, in the order of the list and duplicates included,
    all at the start of the cycle, with the payload
    [{region, action: 'compare'}]; whatever the execution invokes after
    these is the analysis or the correction. *)
Theorem one_compare_per_region regions env input now :
  let e := cycle regions env input now in
  let compares := firstn (length regions) (exec_trace e) in
  let rest := skipn (length regions) (exec_trace e) in
  map ev_payload compares = map compare_payload regions /\
  map ev_state compares = map CheckRegion regions /\
  Forall (fun ev => ev_fn ev = driftDetectorFunction /\ ev_start ev = now)
         compares /\
  Forall (fun ev => ev_state ev = "AnalyzeDrift"
                    \/ ev_state ev = "CorrectDrift") rest.
Proof.
  cbv zeta.
  pose proof (sampling_fields env now regions) as (H1 & H2 & H3).
  pose proof (cycle_has_shape regions env input now) as H.
  destruct H; cbn [exec_trace];
    [rewrite <- (app_nil_r (sampling env now regions)) | ..];
    match goal with
    | |- context [firstn _ (sampling env now regions ++ ?l)] =>
        destruct (firstn_skipn_sampling env now regions l) as [-> ->]
    end;
    repeat split; try assumption;
    repeat (constructor; [first [left; reflexivity | right; reflexivity] |]);
    constructor.
Qed.

Lemma analysis_event env results t1 ev :
  In ev (exec_trace (analyze_drift env results t1)) ->
  at_state "AnalyzeDrift" ev = true ->
  ev_fn ev = driftDetectorFunction /\
  ev_payload ev = analyze_payload results /\ ev_start ev = t1.
Proof.
  rewrite analyze_drift_outcome. cbv zeta.
  destruct (snd _) as [err | report].
  - intros [<- | []] _. repeat split.
  - cbn [after exec_trace app]. intros [<- | Hin] Hat; [repeat split |].
    exfalso. unfold drift_detected in Hin. rewrite json_path_Payload in Hin.
    destruct (json_path ["driftDetected"] report) as [[| [|] | | | |]|];
      try (destruct Hin; fail).
    rewrite correct_drift_outcome in Hin.
    destruct (json_path ["driftRegions"] report); [| destruct Hin].
    destruct (json_path ["canonicalState"] report); [| destruct Hin].
    destruct Hin as [<- | []]. discriminate Hat.
Qed.

(** X4.  The analysis is invoked on the answers of all regions: its
    payload is [{action: 'analyze', results}] where [results] holds, in the
    order of the region list, the task result of every region, and it
    starts at the instant the slowest region answered. *)
Theorem analysis_receives_all_answers regions env input now ev :
  In ev (exec_trace (cycle regions env input now)) ->
  at_state "AnalyzeDrift" ev = true ->
  exists given,
    answers env regions = Some given /\
    ev_fn ev = driftDetectorFunction /\
    ev_payload ev = analyze_payload (results_of given) /\
    ev_start ev = last_answer now given.
Proof.
  destruct (answers env regions) as [given|] eqn:Hg.
  - rewrite (cycle_sampled _ _ _ _ _ Hg). cbn [after exec_trace].
    intros Hin Hat.
    apply in_after_sampling in Hin; [| right; exact Hat].
    exists given. split; [reflexivity |].
    apply (analysis_event _ _ _ _ Hin Hat).
  - rewrite cycle_phases. unfold phases. cbv zeta.
    pose proof (sampling_answers env now regions) as H. rewrite Hg in H.
    rewrite H. fold (sampling env now regions).
    intros Hin Hat. exfalso.
    assert (Hin' : In ev (sampling env now regions ++ [])%list).
    { rewrite app_nil_r. destruct (first_failure _) as [[? ?]|]; exact Hin. }
    apply in_after_sampling in Hin'; [destruct Hin' | right; exact Hat].
Qed.

Lemma analysis_receives_all_answers_witness :
  exists ev given,
    In ev (exec_trace (cycle three_regions two_regions_drifted (JObj []) 0))
    /\ answers two_regions_drifted three_regions = Some given
    /\ ev_payload ev = analyze_payload (results_of given)
    /\ ev_start ev = 1200.
Proof.
  pose (sample := JObj [("samples", JArr [D1_at 377749 (-1224194)])]).
  pose (ev := Event "AnalyzeDrift" driftDetectorFunction
                (analyze_payload
                   (results_of [(1200, sample); (1200, sample);
                                (1200, sample)]))
                1200 2000
                (inr (JObj [("driftDetected", JBool true);
                            ("driftRegions",
                              JArr [JStr "us-east-1"; JStr "eu-west-1"]);
                            ("canonicalState",
                              JObj [("D1", D1_at 377749 (-1224194))])]))).
  assert (Hin : In ev (exec_trace
                         (cycle three_regions two_regions_drifted
                            (JObj []) 0))).
  { vm_compute. do 3 right. left. reflexivity. }
  destruct (analysis_receives_all_answers _ _ _ _ _ Hin eq_refl)
    as (given & Hg & _ & Hp & Hs).
  exists ev, given. repeat split; assumption || reflexivity.
Defined.

(** X5.  The state corrector receives the two fields of the report and
    nothing else: its payload is [{driftRegions, canonicalState}] with the
    values the report of the analysis has at these fields, and it is
    invoked in CorrectDrift at the instant the analysis ended. *)
Theorem corrector_receives_report_fields regions env input now ev :
  let e := cycle regions env input now in
  In ev (exec_trace e) -> by_corrector ev = true ->
  exists report dr cs analysis,
    DriftReport_of e = Some report /\
    json_path ["driftRegions"] report = Some dr /\
    json_path ["canonicalState"] report = Some cs /\
    ev_payload ev = JObj [ ("driftRegions", dr); ("canonicalState", cs) ] /\
    ev_state ev = "CorrectDrift" /\
    In analysis (exec_trace e) /\
    at_state "AnalyzeDrift" analysis = true /\
    ev_start ev = ev_end analysis.
Proof.
  by_shape regions env input now; intros Hin Hc;
    [rewrite <- (app_nil_r (sampling env now regions)) in Hin | ..];
    apply in_after_sampling in Hin; try (left; exact Hc);
    try (destruct Hin as [<- | []]; discriminate Hc);
    try (destruct Hin; fail).
  destruct Hin as [<- | [<- | []]]; [discriminate Hc |].
  exists report, dr, cs, (analyze_event results t1 t2 (inr report)).
  repeat split; try assumption.
  apply in_or_app. right. left. reflexivity.
Qed.

Lemma corrector_receives_report_fields_witness :
  exists ev dr,
    In ev (exec_trace (cycle three_regions two_regions_drifted (JObj []) 0))
    /\ ev_payload ev
       = JObj [ ("driftRegions", dr);
                ("canonicalState", JObj [("D1", D1_at 377749 (-1224194))]) ]
    /\ dr = JArr [JStr "us-east-1"; JStr "eu-west-1"].
Proof.
  pose (ev := correct_event (JArr [JStr "us-east-1"; JStr "eu-west-1"])
                (JObj [("D1", D1_at 377749 (-1224194))]) 2000 5000
                (inr (JObj [("applied", JNum 1); ("failed", JArr [])]))).
  assert (Hin : In ev (exec_trace
                         (cycle three_regions two_regions_drifted
                            (JObj []) 0))).
  { vm_compute. do 4 right. left. reflexivity. }
  destruct (corrector_receives_report_fields _ _ _ _ _ Hin eq_refl)
    as (report & dr & cs & _ & Hr & Hdr & Hcs & Hp & _).
  vm_compute in Hr. injection Hr as <-.
  injection Hdr as <-. injection Hcs as <-.
  exists ev, (JArr [JStr "us-east-1"; JStr "eu-west-1"]).
  repeat split; assumption || reflexivity.
Defined.

(** X6.  When the analysis handler throws, or has not answered after the
    60 seconds of its function, the execution fails in AnalyzeDrift with
    that error (Sandbox.Timedout at the limit), at that instant, and the
    corrector is not invoked. *)
Theorem analysis_failure_fails_cycle regions env input now given ms err :
  answers env regions = Some given ->
  outcome_within 60000 "Sandbox.Timedout"
    (env driftDetectorFunction (analyze_payload (results_of given)))
  = (ms, inl err) ->
  let e := cycle regions env input now in
  exec_status e = Failed err /\
  exec_last e = "AnalyzeDrift" /\
  exec_end e = last_answer now given + ms /\
  corrector_invoked e = false /\
  length (exec_trace e) = S (length regions).
Proof.
  intros Hg Ha. cbv zeta. rewrite (cycle_sampled _ _ _ _ _ Hg).
  rewrite analyze_drift_outcome. cbv zeta. rewrite Ha. cbn [fst snd].
  unfold corrector_invoked.
  cbn [after exec_status exec_last exec_end exec_trace].
  rewrite existsb_sampling, length_app, sampling_length. cbn [length].
  repeat split; try reflexivity. lia.
Qed.

Lemma analysis_failure_fails_cycle_witness :
  exec_status
    (cycle three_regions
       (fun f payload =>
          if is_compare payload then two_regions_drifted f payload else Hangs)
       (JObj []) 0)
  = Failed "Sandbox.Timedout".
Proof.
  eapply (analysis_failure_fails_cycle three_regions _ (JObj []) 0);
    reflexivity.
Defined.



(** X8.  The end of CorrectDrift is decided by its 10-second timeout
    alone: the execution succeeds with the corrector's result when the
    handler returns within 10 seconds, fails with its error when it throws
    within 10 seconds, and fails with States.Timeout exactly 10 seconds
    after the invocation otherwise; the 60-second limit of the function
    never shows. *)
Theorem correction_outcome regions env input now ev :
  let e := cycle regions env input now in
  In ev (exec_trace e) -> by_corrector ev = true ->
  let c := outcome_within 10000 "States.Timeout"
             (env stateCorrectorFunction (ev_payload ev)) in
  ev_result ev = snd c /\
  exec_status e = ending (snd c) /\
  exec_end e = ev_start ev + fst c.
Proof.
  cbv zeta. intros Hin Hc.
  destruct (answers env regions) as [given|] eqn:Hg.
  - rewrite (cycle_sampled _ _ _ _ _ Hg) in *.
    rewrite analyze_drift_outcome in *. cbv zeta in *.
    cbn [after exec_trace] in Hin.
    apply in_after_sampling in Hin; [| left; exact Hc].
    destruct (snd (outcome_within 60000 _ _)) as [err | report].
    + destruct Hin as [<- | []]. discriminate Hc.
    + unfold drift_detected in *. rewrite json_path_Payload in *.
      cbn [after exec_trace exec_status exec_end app] in *.
      destruct Hin as [<- | Hin]; [discriminate Hc |].
      destruct (json_path ["driftDetected"] report) as [[| [|] | | | |]|];
        try (destruct Hin; fail).
      rewrite correct_drift_outcome in *.
      destruct (json_path ["driftRegions"] report) as [dr|];
        [| destruct Hin].
      destruct (json_path ["canonicalState"] report) as [cs|];
        [| destruct Hin].
      cbv zeta in *. cbn [exec_trace exec_status exec_end] in *.
      destruct Hin as [<- | []]. repeat split.
  - exfalso. rewrite cycle_phases in Hin. unfold phases in Hin.
    cbv zeta in Hin.
    pose proof (sampling_answers env now regions) as H. rewrite Hg in H.
    rewrite H in Hin. fold (sampling env now regions) in Hin.
    assert (Hin' : In ev (sampling env now regions ++ [])%list).
    { rewrite app_nil_r. destruct (first_failure _) as [[? ?]|]; exact Hin. }
    apply in_after_sampling in Hin'; [destruct Hin' | left; exact Hc].
Qed.

Lemma correction_outcome_witness :
  let e := cycle three_regions
             (fun f payload =>
                match f with
                | driftDetectorFunction => two_regions_drifted f payload
                | stateCorrectorFunction => Returns 45000 JNull
                end) (JObj []) 0 in
  exec_status e = Failed "States.Timeout" /\ exec_end e = 12000.
Proof.
  cbv zeta.
  pose (ev := correct_event (JArr [JStr "us-east-1"; JStr "eu-west-1"])
                (JObj [("D1", D1_at 377749 (-1224194))]) 2000 12000
                (inl "States.Timeout")).
  destruct (correction_outcome three_regions
              (fun f payload =>
                 match f with
                 | driftDetectorFunction => two_regions_drifted f payload
                 | stateCorrectorFunction => Returns 45000 JNull
                 end) (JObj []) 0 ev) as (_ & Hs & He);
    [vm_compute; do 4 right; left; reflexivity | reflexivity |].
  split; [exact Hs | exact He].
Defined.

(** X9.  No state of the definition reads the event that started the
    execution: two executions that differ only in their input are the
    same. *)
Theorem input_is_not_read regions env input1 input2 now :
  cycle regions env input1 now = cycle regions env input2 now.
Proof. rewrite !cycle_phases. reflexivity. Qed.

Lemma first_failure_regions env now regions :
  match first_failure (map (check_region env now) regions) with
  | Some (s, t) =>
      exists r ms err,
        In r regions /\ failure env r = Some (ms, err) /\
        s = Failed err /\ t = now + ms /\
        forall r' ms' err',
          In r' regions -> failure env r' = Some (ms', err') -> ms <= ms'
  | None => forall r, In r regions -> failure env r = None
  end.
Proof.
  induction regions as [|r rs IH]; cbn [map first_failure];
    [intros r [] |].
  pose proof (check_region_answer env now r) as Hr.
  destruct (answer env r) as [[ms resp]|],
           (failure env r) as [[fms err]|] eqn:Hf;
    try contradiction.
  - rewrite Hr. cbn [exec_status].
    destruct (first_failure _) as [[s t]|].
    + destruct IH as (r0 & ms0 & err0 & Hin & Hf0 & Hs & Ht & Hmin).
      exists r0, ms0, err0.
      split; [right; exact Hin |]. split; [exact Hf0 |].
      split; [exact Hs |]. split; [exact Ht |].
      intros r' ms' err' [<- | Hin'] Hf'; [congruence | eauto].
    + intros r' [<- | Hin']; auto.
  - destruct Hr as [-> Hle]. cbn [exec_status exec_end].
    destruct (first_failure _) as [[s t]|].
    + destruct IH as (r0 & ms0 & err0 & Hin & Hf0 & Hs & Ht & Hmin).
      destruct (now + fms <=? t) eqn:Hcmp.
      * apply N.leb_le in Hcmp. exists r, fms, err.
        split; [left; reflexivity |]. split; [exact Hf |].
        split; [reflexivity |]. split; [reflexivity |].
        intros r' ms' err' [<- | Hin'] Hf'.
        -- assert (ms' = fms) by congruence. lia.
        -- specialize (Hmin r' ms' err' Hin' Hf'). lia.
      * apply N.leb_gt in Hcmp. exists r0, ms0, err0.
        split; [right; exact Hin |]. split; [exact Hf0 |].
        split; [exact Hs |]. split; [exact Ht |].
        intros r' ms' err' [<- | Hin'] Hf'.
        -- assert (ms' = fms) by congruence. lia.
        -- eauto.
    + exists r, fms, err.
      split; [left; reflexivity |]. split; [exact Hf |].
      split; [reflexivity |]. split; [reflexivity |].
      intros r' ms' err' [<- | Hin'] Hf'.
      * assert (ms' = fms) by congruence. lia.
      * rewrite (IH r' Hin') in Hf'. discriminate.
Qed.

(** X10.  When some region does not answer in time, the execution fails
    with the error of the region that failed first, at the instant it
    failed (States.Timeout after 5 seconds for a region that has not
    answered by then), whatever the other regions do. *)
Theorem first_failing_region_fails_cycle regions env input now :
  answers env regions = None ->
  let e := cycle regions env input now in
  exists r ms err,
    In r regions /\ failure env r = Some (ms, err) /\
    exec_status e = Failed err /\
    exec_last e = "CompareRegions" /\
    exec_end e = now + ms /\
    forall r' ms' err',
      In r' regions -> failure env r' = Some (ms', err') -> ms <= ms'.
Proof.
  intros Hg. cbv zeta. rewrite cycle_phases. unfold phases. cbv zeta.
  pose proof (sampling_answers env now regions) as H. rewrite Hg in H.
  rewrite H.
  pose proof (first_failure_regions env now regions) as Hf.
  pose proof (first_failure_sampling env now regions) as Hs.
  destruct (first_failure _) as [[s t]|]; [| congruence].
  destruct Hf as (r & ms & err & Hin & Hfail & -> & -> & Hmin).
  exists r, ms, err.
  split; [exact Hin |]. split; [exact Hfail |].
  split; [reflexivity |]. split; [reflexivity |].
  split; [reflexivity | exact Hmin].
Qed.

Lemma first_failing_region_fails_cycle_witness :
  exists ms err,
    exec_status (cycle three_regions one_region_silent (JObj []) 0)
    = Failed err /\
    exec_end (cycle three_regions one_region_silent (JObj []) 0) = 0 + ms /\
    failure one_region_silent "ap-south-1" = Some (ms, err).
Proof.
  destruct (first_failing_region_fails_cycle
              three_regions one_region_silent (JObj []) 0 eq_refl)
    as (r & ms & err & Hin & Hf & Hs & _ & He & _).
  exists ms, err. repeat split; try assumption.
  destruct Hin as [<- | [<- | [<- | []]]];
    [discriminate Hf | discriminate Hf | exact Hf].
Defined.

(** ** More of the ConsistencyChecker construct *)

Lemma task_functions_of_definition regions :
  task_functions (stateMachineDefinition regions)
  = (repeat driftDetectorFunction (length regions)
     ++ [driftDetectorFunction; stateCorrectorFunction])%list.
Proof.
  cbn -[app].
  match goal with
  | |- context [?F (map ?g regions)] =>
      assert (Hb : F (map g regions)
                   = repeat driftDetectorFunction (length regions))
  end.
  { induction regions as [|r rs IH]; [reflexivity |].
    cbn. rewrite IH. reflexivity. }
  rewrite Hb. reflexivity.
Qed.

(** X11.  The state machine may invoke what it names: the policy of the
    role the state machine runs under lists lambda:InvokeFunction on the
    ARN of a function exactly when a Task of the definition names that
    function, and every function a Task names is declared with the
    timeout its invocations are cut at. *)
Theorem state_machine_may_invoke_its_functions props rs :
  ConsistencyChecker props = Some rs ->
  exists definition policy,
    state_machine_of rs
    = Some (attribute "step-functions-role" "arn", definition) /\
    definition = stateMachineDefinition (regions props) /\
    policy_of "step-functions-policy" rs
    = Some (attribute "step-functions-role" "id", policy) /\
    (forall target,
       In target (listed_for "lambda:InvokeFunction" policy) <->
       exists f, In f (task_functions definition) /\
                 target = attribute (lambda_id f) "arn") /\
    (forall f, In f (task_functions definition) ->
               declared_timeout (lambda_id f) rs = Some (lambda_timeout f)).
Proof.
  unfold ConsistencyChecker.
  destruct (regions props !! 0%nat) as [first|]; [| discriminate].
  destruct (elastiCacheClusters props !! first) as [cluster|];
    [| discriminate].
  intros [= <-]. eexists _, _.
  split; [reflexivity |]. split; [reflexivity |]. split; [reflexivity |].
  rewrite task_functions_of_definition. split.
  - intros target. cbn [listed_for flat_map Effect Action Resource existsb].
    cbn. split.
    + intros [<- | [<- | []]].
      * exists driftDetectorFunction.
        split; [apply in_or_app; right; left |]; reflexivity.
      * exists stateCorrectorFunction.
        split; [apply in_or_app; right; right; left |]; reflexivity.
    + intros ([|] & _ & ->); auto.
  - intros [|] _; reflexivity.
Qed.

Lemma state_machine_may_invoke_its_functions_witness :
  exists rs,
    ConsistencyChecker example_props = Some rs /\
    declared_timeout "state-corrector" rs = Some 60.
Proof.
  eexists. split; [reflexivity |].
  destruct (state_machine_may_invoke_its_functions example_props _ eq_refl)
    as (definition & policy & _ & -> & _ & _ & Ht).
  apply (Ht stateCorrectorFunction).
  rewrite task_functions_of_definition.
  apply in_or_app. right. right. left. reflexivity.
Defined.

Lemma constructor_fails_iff props :
  ConsistencyChecker props = None <->
  regions props = [] \/
  exists first rest,
    regions props = first :: rest /\
    elastiCacheClusters props !! first = None.
Proof.
  unfold ConsistencyChecker.
  destruct (regions props) as [|first rest]; cbn [lookup list_lookup].
  - split; auto.
  - destruct (elastiCacheClusters props !! first) as [cluster|] eqn:Hc.
    + split; [discriminate |].
      intros [| (f & r & [= <- <-] & Hn)]; congruence.
    + split; [| reflexivity]. intros _. right. eauto.
Qed.

Lemma append_cons (c : ascii) (s t : string) :
  (String c s ++ t)%string = String c (s ++ t)%string.
Proof. reflexivity. Qed.

Lemma append_empty (s : string) : (s ++ EmptyString)%string = s.
Proof.
  induction s as [|c s IH]; [reflexivity |].
  rewrite append_cons, IH. reflexivity.
Qed.

Lemma append_snoc (a b : string) (c : ascii) :
  ((a ++ String c EmptyString) ++ b)%string = (a ++ String c b)%string.
Proof.
  induction a as [|x a IH]; [reflexivity |].
  rewrite !append_cons, IH. reflexivity.
Qed.

Lemma append_assoc (a b c : string) :
  ((a ++ b) ++ c)%string = (a ++ (b ++ c))%string.
Proof.
  induction a as [|x a IH]; [reflexivity |].
  rewrite !append_cons, IH. reflexivity.
Qed.

Lemma has_char_append (c : ascii) (a b : string) :
  has_char c (a ++ b)%string = has_char c a || has_char c b.
Proof.
  induction a as [|x a IH]; [reflexivity |].
  rewrite append_cons. cbn [has_char]. rewrite IH. apply orb_assoc.
Qed.






(** ** The CorrectionSystem construct *)

Lemma outcome_within_bound limit err b :
  fst (outcome_within limit err b) <= limit.
Proof.
  unfold outcome_within.
  destruct b as [ms r | ms e |];
    try (destruct (ms <=? limit) eqn:H; [apply N.leb_le in H |]);
    cbn [fst]; lia.
Qed.

(** X14.  Snapshot runs never overlap: the snapshot rule fires every hour
    and the snapshot creator is cut at its timeout of 300 seconds, so the
    run of one firing has ended when the next one starts. *)
Theorem snapshot_runs_never_overlap props random k b :
  let rs := declared (correction_resources (CorrectionSystem props random)) in
  exists rule timeout,
    declared_rule "snapshot-rule" rs = Some rule /\
    declared_timeout "snapshot-creator" rs = Some timeout /\
    fires_every rule 3600 /\
    run_end rule timeout k b <= (k + 1) * period_ms rule.
Proof.
  cbv zeta. eexists _, _.
  split; [reflexivity |]. split; [reflexivity |].
  split; [split; reflexivity |].
  unfold run_end.
  pose proof (outcome_within_bound (300 * 1000) "Sandbox.Timedout" b) as H.
  change (period_ms (snapshotRule (Correction.environment props)))
    with 3600000.
  lia.
Qed.

(** X15.  The snapshots are read-only to the checker.  With the bucket ARN
    of the CorrectionSystem as [snapshotBucketArn], every object the
    snapshot creator may put is one the drift-detector policy lets read,
    the only S3 actions of that policy are GetObject and ListBucket, and
    the state corrector runs under the same role as the drift detector. *)
Theorem checker_only_reads_snapshots cprops random props rs :
  snapshotBucketArn props
  = correction_snapshotBucketArn (CorrectionSystem cprops random) ->
  ConsistencyChecker props = Some rs ->
  exists creator_role creator detector,
    policy_of "snapshot-policy"
      (declared (correction_resources (CorrectionSystem cprops random)))
    = Some (creator_role, creator) /\
    policy_of "drift-detector-policy" rs
    = Some (attribute "drift-detector-role" "id", detector) /\
    (forall object,
       In object (listed_for "s3:PutObject" creator) ->
       In object (listed_for "s3:GetObject" detector)) /\
    actions_of "s3" detector = ["s3:GetObject"; "s3:ListBucket"] /\
    declared_role "drift-detector" rs
    = Some (attribute "drift-detector-role" "arn") /\
    declared_role "state-corrector" rs
    = Some (attribute "drift-detector-role" "arn").
Proof.
  intros Harn. unfold ConsistencyChecker.
  destruct (regions props !! 0%nat) as [first|]; [| discriminate].
  destruct (elastiCacheClusters props !! first) as [cluster|];
    [| discriminate].
  intros [= <-]. eexists _, _, _.
  split; [reflexivity |]. split; [reflexivity |].
  split; [| repeat split; reflexivity].
  rewrite Harn. intros object [<- | []]. right. left. reflexivity.
Qed.

Lemma checker_only_reads_snapshots_witness :
  exists rs detector,
    ConsistencyChecker
      (wired_props (CorrectionSystem example_correction_props [])) = Some rs
    /\ policy_of "drift-detector-policy" rs
       = Some (attribute "drift-detector-role" "id", detector)
    /\ actions_of "s3" detector = ["s3:GetObject"; "s3:ListBucket"].
Proof.
  eexists.
  destruct (checker_only_reads_snapshots example_correction_props []
              (wired_props (CorrectionSystem example_correction_props []))
              _ eq_refl eq_refl)
    as (role & creator & detector & _ & Hd & _ & Ha & _).
  exists detector. split; [reflexivity |]. split; assumption.
Defined.

Lemma unhex_hex_byte (b : Byte.byte) :
  match unhex_digit (hex_digit (Byte.to_N b / 16)),
        unhex_digit (hex_digit (Byte.to_N b mod 16)) with
  | Some h, Some l => Byte.of_N (16 * h + l) = Some b
  | _, _ => False
  end.
Proof. destruct b; reflexivity. Qed.

Lemma unhex_hex (bytes : list Byte.byte) : unhex (hex bytes) = Some bytes.
Proof.
  induction bytes as [|b bytes IH]; [reflexivity |].
  cbn [hex unhex]. pose proof (unhex_hex_byte b) as Hb.
  destruct (unhex_digit (hex_digit (Byte.to_N b / 16))) as [h|];
    [| contradiction].
  destruct (unhex_digit (hex_digit (Byte.to_N b mod 16))) as [l|];
    [| contradiction].
  rewrite IH, Hb. reflexivity.
Qed.

Lemma hex_length (bytes : list Byte.byte) :
  String.length (hex bytes) = (2 * length bytes)%nat.
Proof.
  induction bytes as [|b bytes IH]; [reflexivity |].
  cbn [hex String.length length]. rewrite IH. lia.
Qed.

Lemma append_inj (s a b : string) :
  (s ++ a)%string = (s ++ b)%string -> a = b.
Proof.
  induction s as [|c s IH]; [auto |].
  rewrite !append_cons. intros [= H]. auto.
Qed.

Lemma append_length (a b : string) :
  String.length (a ++ b)%string = (String.length a + String.length b)%nat.
Proof.
  induction a as [|c a IH]; [reflexivity |].
  rewrite append_cons. cbn [String.length]. rewrite IH. reflexivity.
Qed.

(** X19.  The name of the snapshot bucket carries the random bytes without
    loss: it ends with their hexadecimal digits, two for each byte, from
    which the bytes can be read back, so two constructions for the same
    environment declare the same name only for the same bytes. *)
Theorem bucket_name_keeps_random_bytes props random1 random2 :
  bucket_of (correction_resources (CorrectionSystem props random1))
  = bucket_of (correction_resources (CorrectionSystem props random2)) ->
  random1 = random2 /\
  exists front name,
    bucket_of (correction_resources (CorrectionSystem props random1))
    = Some name /\
    name = (front ++ hex random1)%string /\
    unhex (hex random1) = Some random1 /\
    String.length name
    = (20 + String.length (Correction.environment props)
       + 2 * length random1)%nat.
Proof.
  cbn [CorrectionSystem correction_resources bucket_of].
  intros [= H]. apply append_inj in H.
  apply append_inj in H.
  change ("-" ++ hex random1)%string with (String "-" (hex random1)) in H.
  change ("-" ++ hex random2)%string with (String "-" (hex random2)) in H.
  injection H as H. split.
  - pose proof (unhex_hex random1) as H1. rewrite H, unhex_hex in H1.
    congruence.
  - exists ("location-snapshots-" ++ Correction.environment props ++ "-")%string.
    eexists. split; [reflexivity |]. split; [| split].
    + rewrite !append_assoc. reflexivity.
    + apply unhex_hex.
    + rewrite !append_length, hex_length. cbn [String.length]. lia.
Qed.

Lemma bucket_name_keeps_random_bytes_witness :
  exists name,
    bucket_of (correction_resources
                 (CorrectionSystem example_correction_props
                    [Byte.x0a; Byte.x1b; Byte.x2c; Byte.x3d]))
    = Some name /\
    String.length name = 31%nat.
Proof.
  destruct (bucket_name_keeps_random_bytes example_correction_props
              [Byte.x0a; Byte.x1b; Byte.x2c; Byte.x3d]
              [Byte.x0a; Byte.x1b; Byte.x2c; Byte.x3d] eq_refl)
    as (_ & front & name & Hb & _ & _ & Hlen).
  exists name. split; [exact Hb | rewrite Hlen; reflexivity].
Defined.

(** ** The regions of the stack *)

Lemma split_length sep s acc :
  length (split sep s acc) = S (count_char sep s).
Proof.
  revert acc. induction s as [|c s IH]; intros acc; cbn [split count_char];
    [reflexivity |].
  destruct (Ascii.eqb c sep); cbn [length]; rewrite IH; reflexivity.
Qed.

Lemma split_free sep s acc :
  has_char sep acc = false ->
  Forall (fun r => has_char sep r = false) (split sep s acc).
Proof.
  revert acc. induction s as [|c s IH]; intros acc Ha; cbn [split].
  - repeat constructor. exact Ha.
  - destruct (Ascii.eqb c sep) eqn:Hc.
    + constructor; [exact Ha | apply IH; reflexivity].
    + apply IH. rewrite has_char_append, Ha. cbn [has_char].
      rewrite Ascii.eqb_sym, Hc. reflexivity.
Qed.

Lemma has_char_trimStart c s :
  has_char c s = false -> has_char c (trimStart s) = false.
Proof.
  induction s as [|d s IH]; cbn [trimStart has_char]; [auto |].
  intros [H1 H2]%orb_false_elim.
  destruct (is_white d); [auto |]. cbn [has_char]. rewrite H1, H2.
  reflexivity.
Qed.

Lemma has_char_trimEnd c s :
  has_char c s = false -> has_char c (trimEnd s) = false.
Proof.
  induction s as [|d s IH]; cbn [trimEnd has_char]; [auto |].
  intros [H1 H2]%orb_false_elim. specialize (IH H2).
  destruct (trimEnd s) as [|k kept].
  - destruct (is_white d); [reflexivity |]. cbn [has_char].
    rewrite H1. reflexivity.
  - cbn [has_char] in *. rewrite H1, IH. reflexivity.
Qed.

Lemma trimStart_black s : starts_black (trimStart s) = true.
Proof.
  induction s as [|c s IH]; cbn [trimStart]; [reflexivity |].
  destruct (is_white c) eqn:Hc; [exact IH |]. cbn [starts_black].
  rewrite Hc. reflexivity.
Qed.

Lemma trimStart_fixed s : starts_black s = true -> trimStart s = s.
Proof.
  destruct s as [|c s]; cbn [starts_black trimStart]; [reflexivity |].
  intros H%negb_true_iff. rewrite H. reflexivity.
Qed.

Lemma trimEnd_black s : starts_black s = true -> starts_black (trimEnd s) = true.
Proof.
  destruct s as [|c s]; cbn [starts_black trimEnd]; [reflexivity |].
  intros H. destruct (trimEnd s).
  - apply negb_true_iff in H. rewrite H. cbn [starts_black].
    rewrite H. reflexivity.
  - exact H.
Qed.

Lemma trimEnd_idempotent s : trimEnd (trimEnd s) = trimEnd s.
Proof.
  induction s as [|c s IH]; cbn [trimEnd]; [reflexivity |].
  destruct (trimEnd s) as [|k kept] eqn:Hk.
  - destruct (is_white c) eqn:Hc; [reflexivity |].
    cbn [trimEnd]. rewrite Hc. reflexivity.
  - cbn [trimEnd]. cbn [trimEnd] in IH.
    change (trimEnd (String k kept)) with
      (match trimEnd kept with
       | EmptyString => if is_white k then EmptyString
                        else String k EmptyString
       | kept' => String k kept'
       end) in IH.
    rewrite IH. reflexivity.
Qed.

Lemma trim_idempotent s : trim (trim s) = trim s.
Proof.
  unfold trim.
  rewrite (trimStart_fixed (trimEnd (trimStart s)))
    by (apply trimEnd_black, trimStart_black).
  apply trimEnd_idempotent.
Qed.

Example trim_examples :
  trim (String "009" " us-east-1 ") = "us-east-1" /\
  trim "eu west" = "eu west" /\ trim "   " = EmptyString /\
  split "," "a,,b," EmptyString = ["a"; EmptyString; "b"; EmptyString].
Proof. repeat split. Qed.

(** X16.  The region list of the stack is never empty: it has one region
    more than the region string has commas, and every region is trimmed
    and free of commas (it may be empty). *)
Theorem regions_never_empty AWS_REGION REGIONS :
  let regionsString := or_else REGIONS (or_else AWS_REGION "us-east-1") in
  let regions := snd (tap_regions AWS_REGION REGIONS) in
  regions <> [] /\
  length regions = S (count_char "," regionsString) /\
  Forall (fun r => trim r = r /\ has_char "," r = false) regions.
Proof.
  cbv zeta. unfold tap_regions. cbn [snd].
  set (regionsString := or_else REGIONS _).
  pose proof (split_length "," regionsString EmptyString) as Hlen.
  pose proof (split_free "," regionsString EmptyString eq_refl) as Hfree.
  split; [| split].
  - destruct (split "," regionsString EmptyString); [discriminate Hlen |].
    discriminate.
  - rewrite length_map. exact Hlen.
  - clear Hlen.
    induction Hfree as [|r rs Hr _ IH]; cbn [map];
      [constructor | constructor; [| exact IH]].
    split; [apply trim_idempotent |].
    apply has_char_trimEnd, has_char_trimStart, Hr.
Qed.

Lemma split_app_free sep r t acc :
  has_char sep r = false ->
  split sep (r ++ t)%string acc = split sep t (acc ++ r)%string.
Proof.
  revert acc. induction r as [|c r IH]; intros acc; cbn [has_char].
  - intros _. rewrite append_empty. reflexivity.
  - intros [Hc Hr]%orb_false_elim. rewrite append_cons. cbn [split].
    rewrite Ascii.eqb_sym, Hc, IH by exact Hr. rewrite append_snoc.
    reflexivity.
Qed.

Lemma split_join sep parts :
  parts <> [] ->
  Forall (fun r => has_char sep r = false) parts ->
  split sep (join (String sep EmptyString) parts) EmptyString = parts.
Proof.
  intros Hne Hall. induction Hall as [|r rs Hr Hrs IH]; [contradiction |].
  destruct rs as [|r' rs].
  - cbn [join]. rewrite <- (append_empty r) at 1.
    rewrite split_app_free by exact Hr. reflexivity.
  - change (join (String sep EmptyString) (r :: r' :: rs))
      with (r ++ String sep (join (String sep EmptyString) (r' :: rs)))%string.
    rewrite split_app_free by exact Hr. cbn [split].
    rewrite Ascii.eqb_refl. f_equal. apply IH. discriminate.
Qed.

(** X17.  Parsing inverts joining: for a non-empty list of regions that
    are trimmed and free of commas, REGIONS set to the regions joined by
    commas gives back exactly that list (unless the joined string is
    empty, which falls back to the primary region). *)
Theorem regions_round_trip AWS_REGION (regions : list string) :
  regions <> [] ->
  Forall (fun r => trim r = r /\ has_char "," r = false) regions ->
  join "," regions <> EmptyString ->
  snd (tap_regions AWS_REGION (Some (join "," regions))) = regions.
Proof.
  intros Hne Hall Hjoin. unfold tap_regions. cbn [snd].
  assert (Hor : or_else (Some (join "," regions))
                        (or_else AWS_REGION "us-east-1")
                = join "," regions).
  { unfold or_else at 1. destruct (join "," regions); [contradiction |].
    reflexivity. }
  rewrite Hor, split_join.
  - clear Hne Hjoin Hor. induction Hall as [|r rs [Hr _] _ IH]; cbn [map];
      [reflexivity | rewrite Hr, IH; reflexivity].
  - exact Hne.
  - eapply Forall_impl; [exact Hall |]. intros r [_ H]. exact H.
Qed.

Lemma regions_round_trip_witness :
  snd (tap_regions None (Some "us-east-1,eu-west-1,ap-south-1"))
  = three_regions.
Proof.
  apply (regions_round_trip None three_regions);
    [discriminate | repeat constructor | discriminate].
Defined.

(** X18.  With REGIONS unset or empty the regions are read off the primary
    region itself, and the primary region is one of them exactly when it
    holds no comma and no outer white space, as the default us-east-1
    does. *)
Theorem primary_region_among_regions AWS_REGION REGIONS :
  REGIONS = None \/ REGIONS = Some EmptyString ->
  let primaryRegion := fst (tap_regions AWS_REGION REGIONS) in
  let regions := snd (tap_regions AWS_REGION REGIONS) in
  (In primaryRegion regions <->
   trim primaryRegion = primaryRegion /\ has_char "," primaryRegion = false)
  /\
  (AWS_REGION = None -> primaryRegion = "us-east-1" /\ regions = ["us-east-1"]).
Proof.
  intros Hr. cbv zeta.
  pose proof (regions_never_empty AWS_REGION REGIONS) as (_ & _ & Hall).
  cbv zeta in Hall. unfold tap_regions in *. cbn [fst snd] in *.
  assert (Hor : or_else REGIONS (or_else AWS_REGION "us-east-1")
                = or_else AWS_REGION "us-east-1")
    by (destruct Hr as [-> | ->]; reflexivity).
  rewrite Hor in *. set (primary := or_else AWS_REGION "us-east-1") in *.
  split; [split |].
  - intros Hin. rewrite Forall_forall in Hall.
    apply Hall, list_elem_of_In, Hin.
  - intros [Ht Hc].
    rewrite <- (append_empty primary) at 2.
    rewrite split_app_free by exact Hc. cbn [split map].
    change (EmptyString ++ primary)%string with primary.
    rewrite Ht. left. reflexivity.
  - intros ->. split; reflexivity.
Qed.

Lemma primary_region_among_regions_witness :
  ~ In " eu-west-1" (snd (tap_regions (Some " eu-west-1") None)).
Proof.
  intros Hin.
  apply (primary_region_among_regions (Some " eu-west-1") None) in Hin
    as [Ht _]; [discriminate Ht | left; reflexivity].
Defined.

(** X12.  On the regions of the entry point the constructor of the
    ConsistencyChecker finds a first region, which is trimmed, and it
    throws exactly when that region has no cache cluster: the list is
    never empty, and the clusters of the other regions are not looked
    at. *)
Theorem constructor_on_parsed_regions AWS_REGION REGIONS props :
  regions props = snd (tap_regions AWS_REGION REGIONS) ->
  exists first,
    regions props !! 0%nat = Some first /\
    trim first = first /\
    (ConsistencyChecker props = None <->
     elastiCacheClusters props !! first = None).
Proof.
  intros Hr.
  pose proof (regions_never_empty AWS_REGION REGIONS) as (Hne & _ & Hall).
  cbv zeta in Hne, Hall. rewrite <- Hr in Hne, Hall.
  pose proof (constructor_fails_iff props) as Hfail.
  destruct (regions props) as [|first rest]; [contradiction |].
  apply Forall_cons in Hall as [[Ht _] _].
  exists first. split; [reflexivity |]. split; [exact Ht |].
  rewrite Hfail. split.
  - intros [| (f & r & [= <- <-] & Hn)]; [discriminate | exact Hn].
  - intros Hn. right. eauto.
Qed.

Lemma constructor_on_parsed_regions_witness :
  ConsistencyChecker
    {| providers := providers example_props;
       regions := snd (tap_regions None (Some ",us-east-1"));
       primaryRegion := "us-east-1";
       elastiCacheClusters := elastiCacheClusters example_props;
       snapshotBucketArn := snapshotBucketArn example_props;
       kinesisStreamArns := [];
       environment := "dev" |}
  = None.
Proof.
  destruct (constructor_on_parsed_regions None (Some ",us-east-1")
              {| providers := providers example_props;
                 regions := snd (tap_regions None (Some ",us-east-1"));
                 primaryRegion := "us-east-1";
                 elastiCacheClusters := elastiCacheClusters example_props;
                 snapshotBucketArn := snapshotBucketArn example_props;
                 kinesisStreamArns := [];
                 environment := "dev" |} eq_refl)
    as (first & Hf & _ & Hiff).
  apply Hiff. injection Hf as <-. reflexivity.
Defined.
